(** * CSignalHelpers: the signal-safe crash report writer

    A shallow embedding of [Sources/CSignalHelpers/CSignalHelpers.c]:
    the numeric converters ([minimal_itoa_for_signals], [simple_itoa],
    [simple_ulltoa], [simple_ptr_to_hex]), the primitive writers and the
    report composer [write_minimal_crash_info_c], followed by the
    properties of the report they produce.

    Conventions of the embedding:
    - C integers are [Z]; the places where a 32-bit [int] can wrap
      (negation, the running total, the narrowing casts) go through
      [to_int32];
    - a [char] is an [ascii]; a [char*] is an offset into a [memory],
      a list of cells that are either uninitialised or hold a byte;
    - a store or load outside the memory object, a load of an
      uninitialised cell, and a loop that outlives its iteration bound
      are faults, never silent;
    - [write(2)] and [fsync(2)] are events appended to a trace; what
      [write] returns is decided by a [kernel], a function of the
      history and the request. *)

From Stdlib Require Import ZArith Ascii String Lia.
From stdpp Require Import base numbers list strings pretty.

Open Scope Z_scope.

(** ** Machine integers *)

Definition INT32_MIN : Z := -2147483648.
Definition INT32_MAX : Z := 2147483647.
Definition UINT64_MAX : Z := 18446744073709551615.

Definition in_int32 (z : Z) : Prop := INT32_MIN <= z <= INT32_MAX.
Definition in_uint64 (z : Z) : Prop := 0 <= z <= UINT64_MAX.

(** The value of [(int32_t)z]: [z] reduced modulo 2^32 into the signed
    range. *)
Definition to_int32 (z : Z) : Z := (z + 2147483648) mod 4294967296 - 2147483648.

(** [-val] and [a + b] on [int], two's complement. *)
Definition neg32 (val : Z) : Z := to_int32 (- val).
Definition add32 (a b : Z) : Z := to_int32 (a + b).

(** [(char)n] for an [int] n. *)
Definition char_of_Z (n : Z) : ascii := ascii_of_N (Z.to_N (n mod 256)).

Definition NUL : ascii := "000"%char.

(** ** Faults and results *)

Inductive fault : Type :=
| OutOfBounds (off : Z)      (* access outside the memory object *)
| Uninitialised (off : Z)    (* load of a cell never stored to *)
| OutOfFuel.                 (* a loop ran past its iteration bound *)

Inductive result (A : Type) : Type :=
| Ok (a : A)
| Fault (f : fault).
Arguments Ok {A} a.
Arguments Fault {A} f.

#[global] Instance result_ret : MRet result := fun A a => Ok a.
#[global] Instance result_bind : MBind result := fun A B k m =>
  match m with
  | Ok a => k a
  | Fault f => Fault f
  end.

(** ** Memory objects *)

Abbreviation cell := (option ascii).
Abbreviation memory := (list cell).

(** [*p = c] *)
Definition store (mem : memory) (p : Z) (c : ascii) : result memory :=
  if (0 <=? p) && (p <? Z.of_nat (length mem))
  then Ok (<[Z.to_nat p := Some c]> mem)
  else Fault (OutOfBounds p).

(** [*p] *)
Definition load (mem : memory) (p : Z) : result ascii :=
  if 0 <=? p then
    match mem !! Z.to_nat p with
    | Some (Some c) => Ok c
    | Some None => Fault (Uninitialised p)
    | None => Fault (OutOfBounds p)
    end
  else Fault (OutOfBounds p).

(** The bytes that [strlen] walks over: the cells from [off] on, up to
    and excluding the first NUL. *)
Fixpoint scan (cells : list cell) (off : Z) : result string :=
  match cells with
  | [] => Fault (OutOfBounds off)
  | None :: _ => Fault (Uninitialised off)
  | Some c :: rest =>
      if Ascii.eqb c NUL then Ok EmptyString
      else s ← scan rest (off + 1); Ok (String c s)
  end.

(** The null-terminated string at [p]; [strlen(p)] is its length. *)
Definition c_string (mem : memory) (p : Z) : result string :=
  if 0 <=? p then scan (drop (Z.to_nat p) mem) p else Fault (OutOfBounds p).

(** ** The converters *)

(** The digit loop of [simple_itoa] and of [simple_ulltoa] (the two
    loops are the same text; on the positive values that enter them the
    signed and the unsigned [%] and [/] agree):
    [while (val > 0 && p >= buf) { *p-- = (char)((val % 10) + '0'); val /= 10; }]
    The loop moves [p] down by one per iteration and stops below [buf], so
    [p - buf + 1] bounds its iterations. *)
Fixpoint decimal_loop (fuel : nat) (val p buf : Z) (mem : memory)
  : result (Z * Z * memory) :=
  if (0 <? val) && (buf <=? p) then
    match fuel with
    | O => Fault OutOfFuel
    | S fuel =>
        mem ← store mem p (char_of_Z (Z.rem val 10 + 48));
        decimal_loop fuel (Z.quot val 10) (p - 1) buf mem
    end
  else Ok (val, p, mem).

Definition simple_itoa (val : Z) (mem : memory) (buf buf_len : Z)
  : result (Z * memory) :=
  let p := buf + buf_len - 1 in
  mem ← store mem p NUL;
  let p := p - 1 in
  if (val =? 0) && (buf <? p) then
    mem ← store mem p "0"%char;
    let p := p - 1 in
    Ok (p + 1, mem)
  else
    let sign := val <? 0 in
    let val := if sign then neg32 val else val in
    '(_, p, mem) ← decimal_loop (Z.to_nat (p - buf + 1)) val p buf mem;
    if sign && (buf <=? p) then
      mem ← store mem p "-"%char;
      let p := p - 1 in
      Ok (p + 1, mem)
    else Ok (p + 1, mem).

Definition simple_ulltoa (val : Z) (mem : memory) (buf buf_len : Z)
  : result (Z * memory) :=
  let p := buf + buf_len - 1 in
  mem ← store mem p NUL;
  let p := p - 1 in
  if (val =? 0) && (buf <? p) then
    mem ← store mem p "0"%char;
    let p := p - 1 in
    Ok (p + 1, mem)
  else
    '(_, p, mem) ← decimal_loop (Z.to_nat (p - buf + 1)) val p buf mem;
    Ok (p + 1, mem).

Definition hex_chars : string := "0123456789abcdef".

(** [hex_chars[i]] *)
Definition hex_char (i : Z) : result ascii :=
  match String.get (Z.to_nat i) hex_chars with
  | Some c => if 0 <=? i then Ok c else Fault (OutOfBounds i)
  | None => Fault (OutOfBounds i)
  end.

(** [while (val > 0 && p >= buf) { *p-- = hex_chars[val & 0xF]; val >>= 4; }] *)
Fixpoint hex_loop (fuel : nat) (val p buf : Z) (mem : memory)
  : result (Z * Z * memory) :=
  if (0 <? val) && (buf <=? p) then
    match fuel with
    | O => Fault OutOfFuel
    | S fuel =>
        c ← hex_char (Z.land val 15);
        mem ← store mem p c;
        hex_loop fuel (Z.shiftr val 4) (p - 1) buf mem
    end
  else Ok (val, p, mem).

(** [ptr_val] is the pointer already seen as a [uintptr_t]. *)
Definition simple_ptr_to_hex (ptr_val : Z) (mem : memory) (buf buf_len : Z)
  : result (Z * memory) :=
  let val := ptr_val in
  let p := buf + buf_len - 1 in
  mem ← store mem p NUL;
  let p := p - 1 in
  '(p, mem) ← (if (val =? 0) && (buf <? p)
               then mem ← store mem p "0"%char; Ok (p - 1, mem)
               else Ok (p, mem));
  '(_, p, mem) ← hex_loop (Z.to_nat (p - buf + 1)) val p buf mem;
  '(p, mem) ← (if buf <? p
               then mem ← store mem p "x"%char; Ok (p - 1, mem)
               else Ok (p, mem));
  '(p, mem) ← (if buf <=? p
               then mem ← store mem p "0"%char; Ok (p - 1, mem)
               else Ok (p, mem));
  Ok (p + 1, mem).

(** The forward digit loop of [minimal_itoa_for_signals]:
    [while (val > 0 && p < p_end) { *p++ = (char)((val % 10) + '0'); val /= 10; }] *)
Fixpoint forward_loop (fuel : nat) (val p p_end : Z) (mem : memory)
  : result (Z * Z * memory) :=
  if (0 <? val) && (p <? p_end) then
    match fuel with
    | O => Fault OutOfFuel
    | S fuel =>
        mem ← store mem p (char_of_Z (Z.rem val 10 + 48));
        forward_loop fuel (Z.quot val 10) (p + 1) p_end mem
    end
  else Ok (val, p, mem).

(** [while (p1 < p2) { char tmp = *p1; *p1++ = *p2; *p2-- = tmp; }] *)
Fixpoint reverse_loop (fuel : nat) (p1 p2 : Z) (mem : memory) : result memory :=
  if p1 <? p2 then
    match fuel with
    | O => Fault OutOfFuel
    | S fuel =>
        tmp ← load mem p1;
        c ← load mem p2;
        mem ← store mem p1 c;
        mem ← store mem p2 tmp;
        reverse_loop fuel (p1 + 1) (p2 - 1) mem
    end
  else Ok mem.

(** Returns the pointer to the terminator (or [buf] itself on the early
    returns); the text starts at the [buf] that was passed in. *)
Definition minimal_itoa_for_signals (val : Z) (mem : memory) (buf buf_size : Z)
  : result (Z * memory) :=
  if buf_size <? 2 then Ok (buf, mem)
  else
    let start_buf := buf in
    if val =? 0 then
      mem ← store mem buf "0"%char;
      let buf := buf + 1 in
      mem ← store mem buf NUL;
      Ok (buf, mem)
    else if (val <? 0) && (buf_size <? 3) then Ok (start_buf, mem)
    else
      '(val, buf, buf_size, mem) ←
        (if val <? 0
         then mem ← store mem buf "-"%char;
              Ok (neg32 val, buf + 1, buf_size - 1, mem)
         else Ok (val, buf, buf_size, mem));
      let p := buf in
      let p_end := buf + buf_size - 1 in
      '(_, p, mem) ← forward_loop (Z.to_nat (p_end - p)) val p p_end mem;
      '(p, mem) ← (if (p =? buf) && (p <? p_end)
                   then mem ← store mem p "0"%char; Ok (p + 1, mem)
                   else Ok (p, mem));
      mem ← store mem p NUL;
      let p1 := buf in
      let p2 := p - 1 in
      mem ← reverse_loop (Z.to_nat (p2 - p1)) p1 p2 mem;
      Ok (p, mem).

(** ** The destination: system calls as a trace *)

Inductive event : Type :=
| EvWrite (fd : Z) (data : string) (res : Z)   (* write(fd, data, strlen data) = res *)
| EvFsync (fd : Z).

Abbreviation trace := (list event).

(** What [write] answers to a request, given everything that happened
    before it. *)
Definition kernel : Type := trace → Z → string → Z.

(** Every write transfers all its bytes. *)
Definition full_kernel : kernel := fun _ _ data => Z.of_nat (String.length data).

(** Every write fails. *)
Definition dead_kernel : kernel := fun _ _ _ => -1.

Definition io (A : Type) : Type := trace → result (A * trace).

#[global] Instance io_ret : MRet io := fun A a t => Ok (a, t).
#[global] Instance io_bind : MBind io := fun A B k m t =>
  match m t with
  | Ok (a, t') => k a t'
  | Fault f => Fault f
  end.

Definition lift {A : Type} (r : result A) : io A := fun t =>
  match r with
  | Ok a => Ok (a, t)
  | Fault f => Fault f
  end.

(** [if (res > 0) total_written += res;] *)
Definition accumulate (total_written res : Z) : Z :=
  if 0 <? res then add32 total_written res else total_written.

Section Writers.

(** The environment: how [write] behaves and the size of a pointer. *)
Variable K : kernel.
Variable ptr_bytes : Z.   (* sizeof(void* ) *)

Definition sys_write (fd : Z) (data : string) : io Z := fun t =>
  let res := K t fd data in Ok (res, t ++ [EvWrite fd data res]).

Definition sys_fsync (fd : Z) : io unit := fun t =>
  Ok (tt, t ++ [EvFsync fd]).

(** [write] returns a [ssize_t]; the writers return it as an [int]. *)
Definition write_literal (fd : Z) (str : string) : io Z :=
  res ← sys_write fd str; mret (to_int32 res).

Definition write_int32_val (fd val : Z) : io Z :=
  let num_buf : memory := replicate 12 None in
  '(str_val, num_buf) ← lift (simple_itoa val num_buf 0 12);
  text ← lift (c_string num_buf str_val);
  res ← sys_write fd text; mret (to_int32 res).

Definition write_uint64_val (fd val : Z) : io Z :=
  let num_buf : memory := replicate 21 None in
  '(str_val, num_buf) ← lift (simple_ulltoa val num_buf 0 21);
  text ← lift (c_string num_buf str_val);
  res ← sys_write fd text; mret (to_int32 res).

Definition ptr_buf_size : Z := ptr_bytes * 2 + 3.

Definition write_ptr_val (fd val : Z) : io Z :=
  let ptr_buf : memory := replicate (Z.to_nat ptr_buf_size) None in
  '(str_val, ptr_buf) ← lift (simple_ptr_to_hex val ptr_buf 0 ptr_buf_size);
  text ← lift (c_string ptr_buf str_val);
  res ← sys_write fd text; mret (to_int32 res).

(** [frames[i]] *)
Definition read_frame (frames : list Z) (i : Z) : io Z :=
  lift (if 0 <=? i then
          match frames !! Z.to_nat i with
          | Some f => Ok f
          | None => Fault (OutOfBounds i)
          end
        else Fault (OutOfBounds i)).

(** The frame loop, from [i] on; [frame_count - i] bounds its
    iterations. *)
Fixpoint frames_loop (fuel : nat) (fd : Z) (frames : list Z)
    (frame_count i total_written : Z) : io Z :=
  if i <? frame_count then
    match fuel with
    | O => lift (Fault OutOfFuel)
    | S fuel =>
        frame ← read_frame frames i;
        total_written ←
          (if negb (frame =? 0) then
             res ← write_literal fd "  ";
             let total_written := accumulate total_written res in
             res ← write_ptr_val fd frame;
             let total_written := accumulate total_written res in
             res ← write_literal fd (String "010" "");
             let total_written := accumulate total_written res in
             mret total_written
           else
             res ← write_literal fd ("  0x0 (nil)" +:+ String "010" "");
             let total_written := accumulate total_written res in
             mret total_written);
        if 4000 <? total_written then mret total_written
        else frames_loop fuel fd frames frame_count (i + 1) total_written
    end
  else mret total_written.

Definition end_marker : string := "--- C Minimal Report End ---" +:+ String "010" "".

Definition write_minimal_crash_info_c
    (fd signal_num timestamp thread_id : Z) (frames : list Z) (frame_count : Z)
  : io Z :=
  if fd <? 0 then mret (-1)
  else
    let total_written := 0 in
    res ← write_literal fd "Signal: ";
    let total_written := accumulate total_written res in
    res ← write_int32_val fd signal_num;
    let total_written := accumulate total_written res in
    res ← write_literal fd (String "010" "Timestamp: ");
    let total_written := accumulate total_written res in
    res ← write_int32_val fd (to_int32 timestamp);
    let total_written := accumulate total_written res in
    res ← write_literal fd (String "010" "ThreadID: ");
    let total_written := accumulate total_written res in
    res ← write_uint64_val fd thread_id;
    let total_written := accumulate total_written res in
    res ← write_literal fd (String "010" "Frames_count: ");
    let total_written := accumulate total_written res in
    res ← write_int32_val fd (to_int32 frame_count);
    let total_written := accumulate total_written res in
    res ← write_literal fd (String "010" "Frames (raw addresses):" +:+ String "010" "");
    let total_written := accumulate total_written res in
    total_written ←
      frames_loop (Z.to_nat frame_count) fd frames frame_count 0 total_written;
    res ← write_literal fd end_marker;
    let total_written := accumulate total_written res in
    _ ← sys_fsync fd;
    mret (if 0 <? total_written then total_written else -1).

End Writers.

(** ** Reference notions for the statements *)

(** *** Decimal text

    The reference rendering of an integer is stdpp's [pretty]; the
    reference parser below reads an optional minus sign and then one or
    more decimal digits, most significant first, like [strtol] in base
    10. *)

Definition digit_value (c : ascii) : option Z :=
  let n := Z.of_N (N_of_ascii c) in
  if (48 <=? n) && (n <=? 57) then Some (n - 48) else None.

Fixpoint parse_digits (acc : Z) (s : string) : option Z :=
  match s with
  | EmptyString => Some acc
  | String c s' =>
      match digit_value c with
      | Some d => parse_digits (10 * acc + d) s'
      | None => None
      end
  end.

Definition parse_decimal (s : string) : option Z :=
  match s with
  | EmptyString => None
  | String c s' =>
      if Ascii.eqb c "-"%char then
        match s' with
        | EmptyString => None
        | _ => Z.opp <$> parse_digits 0 s'
        end
      else parse_digits 0 s
  end.

(** *** Hexadecimal text *)

(** The lowercase digit of a nibble, by character code. *)
Definition nibble_char (d : Z) : ascii :=
  if d <? 10 then char_of_Z (48 + d) else char_of_Z (97 + (d - 10)).

(** The [n] lowest nibbles of [v], most significant first. *)
Fixpoint hex_fixed (n : nat) (v : Z) : string :=
  match n with
  | O => EmptyString
  | S n => String (nibble_char (Z.land (Z.shiftr v (4 * Z.of_nat n)) 15)) (hex_fixed n v)
  end.

(** How many nibbles a positive [v] needs. *)
Definition nibbles (v : Z) : nat := Z.to_nat (Z.log2 v / 4 + 1).

Definition hex_of (v : Z) : string :=
  if v =? 0 then "0" else hex_fixed (nibbles v) v.

Definition hex_digit_value (c : ascii) : option Z :=
  let n := Z.of_N (N_of_ascii c) in
  if (48 <=? n) && (n <=? 57) then Some (n - 48)
  else if (97 <=? n) && (n <=? 102) then Some (n - 87)
  else None.

Fixpoint parse_hex (acc : Z) (s : string) : option Z :=
  match s with
  | EmptyString => Some acc
  | String c s' =>
      match hex_digit_value c with
      | Some d => parse_hex (16 * acc + d) s'
      | None => None
      end
  end.

(** *** What each value writer asks [write] to send *)

(** [simple_itoa] negates [INT32_MIN] to itself and then finds no digit
    to emit. *)
Definition int32_text (val : Z) : string :=
  if val =? INT32_MIN then "-" else pretty val.

Definition uint64_text (val : Z) : string := pretty val.

Definition ptr_text (val : Z) : string := "0x" +:+ hex_of val.

(** *** Confinement of a converter to its buffer *)

(** [mem'] differs from [mem] only inside [buf, buf + buf_len). *)
Definition confined (mem mem' : memory) (buf buf_len : Z) : Prop :=
  length mem' = length mem
  ∧ ∀ i : nat, Z.of_nat i < buf ∨ buf + buf_len <= Z.of_nat i → mem' !! i = mem !! i.

(** The string at [start] lies, terminator included, inside
    [buf, buf + buf_len). *)
Definition terminated_within (mem' : memory) (start buf buf_len : Z) : Prop :=
  ∃ s, c_string mem' start = Ok s
       ∧ buf <= start
       ∧ start + Z.of_nat (String.length s) < buf + buf_len.

Definition bounded_conversion
    (conv : Z → memory → Z → Z → result (Z * memory))
    (val : Z) (mem : memory) (buf buf_len : Z) : Prop :=
  ∃ start mem',
    conv val mem buf buf_len = Ok (start, mem')
    ∧ confined mem mem' buf buf_len
    ∧ terminated_within mem' start buf buf_len.

(** The state of a converter that fills its buffer from the end [e]
    downwards: the text [s] sits in the cells above [p], up to the
    terminator at [e], and nothing else changed since [orig]. *)
Definition built (orig mem : memory) (p e : Z) (s : string) : Prop :=
  length mem = length orig
  ∧ (∀ i : nat, Z.of_nat i <= p ∨ e < Z.of_nat i → mem !! i = orig !! i)
  ∧ c_string mem (p + 1) = Ok s
  ∧ p + 1 + Z.of_nat (String.length s) = e.

(** Two small memory objects for the examples: three free bytes between
    two bytes that belong to something else, and two bytes in use. *)
Definition fenced_memory : memory := [Some "A"; None; None; None; Some "B"]%char.
Definition two_bytes : memory := [Some "A"; Some "B"]%char.

(** *** The report as a sequence of requests *)

Definition LF : string := String "010" "".

(** The trace that grows out of [t] when the [requests] are sent to
    [fd] one after the other, each answered by the kernel. *)
Fixpoint replay (K : kernel) (fd : Z) (t : trace) (requests : list string) : trace :=
  match requests with
  | [] => t
  | data :: requests => replay K fd (t ++ [EvWrite fd data (K t fd data)]) requests
  end.

(** Steps 1 to 5 of the report, given the texts of the four fields. *)
Definition header_with (signal_text timestamp_text thread_text count_text : string)
  : list string :=
  [ "Signal: "; signal_text;
    LF +:+ "Timestamp: "; timestamp_text;
    LF +:+ "ThreadID: "; thread_text;
    LF +:+ "Frames_count: "; count_text;
    LF +:+ "Frames (raw addresses):" +:+ LF ].

(** Steps 1 to 5 as the composer performs them. *)
Definition header_requests (signal_num timestamp thread_id frame_count : Z)
  : list string :=
  header_with (int32_text signal_num) (int32_text (to_int32 timestamp))
    (uint64_text thread_id) (int32_text frame_count).

(** Step 6, for one frame and for a list of frames. *)
Definition frame_requests (frame : Z) : list string :=
  if frame =? 0 then [ "  0x0 (nil)" +:+ LF ] else [ "  "; ptr_text frame; LF ].

Fixpoint frames_requests (frames : list Z) : list string :=
  match frames with
  | [] => []
  | frame :: frames => frame_requests frame ++ frames_requests frames
  end.

(** The requests of a report that emits the first [n] frames. *)
Definition report_requests
    (signal_num timestamp thread_id frame_count : Z) (frames : list Z) (n : nat)
  : list string :=
  header_requests signal_num timestamp thread_id frame_count
  ++ frames_requests (take n frames) ++ [end_marker].

(** The text of a sequence of requests that are all sent in full. *)
Fixpoint text_of (requests : list string) : string :=
  match requests with
  | [] => EmptyString
  | data :: requests => data +:+ text_of requests
  end.

(** *** Observations on a trace *)

(** The bytes a trace delivered to descriptor [fd]: of each write with a
    positive result, that many leading bytes. *)
Fixpoint emitted (fd : Z) (t : trace) : string :=
  match t with
  | [] => EmptyString
  | EvWrite fd' data res :: t' =>
      if (fd' =? fd) && (0 <? res)
      then substring 0 (Z.to_nat res) data +:+ emitted fd t'
      else emitted fd t'
  | EvFsync _ :: t' => emitted fd t'
  end.

(** The data of the writes of a trace, whatever their outcome. *)
Definition attempts (t : trace) : list string :=
  omap (fun e => match e with EvWrite _ data _ => Some data | EvFsync _ => None end) t.

(** The cumulative total of a trace: the sum, in [int] arithmetic, of the
    results of its writes that, as [int], are positive. *)
Definition tally (t : trace) : Z :=
  foldl (fun total e =>
           match e with
           | EvWrite _ _ res =>
               if 0 <? to_int32 res then to_int32 (total + to_int32 res) else total
           | EvFsync _ => total
           end) 0 t.

(** A write that returned a positive [int]. *)
Definition succeeded (e : event) : Prop :=
  match e with
  | EvWrite _ _ res => 0 < to_int32 res
  | EvFsync _ => False
  end.

(** A pointer of [ptr_bytes] bytes, as an unsigned integer. *)
Definition pointer_sized (ptr_bytes frame : Z) : Prop :=
  0 <= frame < 2 ^ (8 * ptr_bytes).

(** A writer that issues exactly one [write], of [data], and returns its
    result as an [int]. *)
Definition emits (K : kernel) (fd : Z) (data : string) (w : io Z) : Prop :=
  ∀ t, w t = Ok (to_int32 (K t fd data), t ++ [EvWrite fd data (K t fd data)]).

(** The number of bytes of a sequence of requests. *)
Fixpoint total_length (requests : list string) : Z :=
  match requests with
  | [] => 0
  | data :: requests => Z.of_nat (String.length data) + total_length requests
  end.

(** The longest frame line: the null line has 12 bytes, a pointer line
    two spaces, ["0x"], two digits per byte and a line feed. *)
Definition max_frame_line (ptr_bytes : Z) : Z := Z.max 12 (ptr_bytes * 2 + 5).

(** The requests of a report without frame lines, its Frames_count field
    being the decimal text of the count. *)
Definition frameless_requests (signal_num timestamp thread_id frame_count : Z)
  : list string :=
  header_with (int32_text signal_num) (int32_text (to_int32 timestamp))
    (uint64_text thread_id) (pretty frame_count)
  ++ [end_marker].

(** *** Kernels and deliveries *)

(** A kernel that answers as [write(2)] may: -1, or a count of bytes
    that does not exceed the request. *)
Definition conforming (K : kernel) : Prop :=
  ∀ t fd data, -1 <= K t fd data <= Z.of_nat (String.length data).

(** The number of bytes a trace delivered to [fd]. *)
Definition delivered (fd : Z) (t : trace) : Z :=
  Z.of_nat (String.length (emitted fd t)).

(** * Properties *)

(** ** The converters on a few inputs *)

(** The text a converter returned: the string at the pointer it gave
    back. *)
Definition returned_text (r : result (Z * memory)) : result string :=
  '(p, mem) ← r; c_string mem p.

Example simple_itoa_positive :
  returned_text (simple_itoa 1700000000 (replicate 12 None) 0 12) = Ok "1700000000".
Proof. reflexivity. Qed.

Example simple_itoa_negative :
  returned_text (simple_itoa (-17) (replicate 12 None) 0 12) = Ok "-17".
Proof. reflexivity. Qed.

Example simple_itoa_truncates :
  returned_text (simple_itoa 12345 (replicate 3 None) 0 3) = Ok "45".
Proof. reflexivity. Qed.

Example simple_itoa_zero_in_two_bytes :
  returned_text (simple_itoa 0 (replicate 2 None) 0 2) = Ok "".
Proof. reflexivity. Qed.

Example simple_ulltoa_max :
  returned_text (simple_ulltoa UINT64_MAX (replicate 21 None) 0 21)
  = Ok "18446744073709551615".
Proof. reflexivity. Qed.

Example simple_ptr_to_hex_deadbeef :
  returned_text (simple_ptr_to_hex 3735928559 (replicate 19 None) 0 19)
  = Ok "0xdeadbeef".
Proof. reflexivity. Qed.

Example simple_ptr_to_hex_truncates :
  returned_text (simple_ptr_to_hex 255 (replicate 3 None) 0 3) = Ok "ff".
Proof. reflexivity. Qed.

Example minimal_itoa_negative :
  ('(p, mem) ← minimal_itoa_for_signals (-1234) (replicate 12 None) 0 12;
   text ← c_string mem 0; Ok (p, text))
  = Ok (5, "-1234").
Proof. reflexivity. Qed.

Example simple_itoa_empty_buffer :
  simple_itoa 5 [] 0 0 = Fault (OutOfBounds (-1)).
Proof. reflexivity. Qed.

(** ** Machine integers *)

Lemma to_int32_id z : in_int32 z → to_int32 z = z.
Proof.
  unfold in_int32, INT32_MIN, INT32_MAX, to_int32. intros Hz.
  rewrite Z.mod_small by lia. lia.
Qed.

Lemma to_int32_range z : in_int32 (to_int32 z).
Proof.
  unfold in_int32, INT32_MIN, INT32_MAX, to_int32.
  pose proof (Z.mod_pos_bound (z + 2147483648) 4294967296). lia.
Qed.

Lemma neg32_opp z : INT32_MIN < z → z <= INT32_MAX → neg32 z = - z.
Proof.
  intros Hlo Hhi. apply to_int32_id.
  unfold in_int32, INT32_MIN, INT32_MAX in *. lia.
Qed.

(** ** Digits *)

Lemma digit_char d :
  0 <= d < 10 → char_of_Z (d + 48) = pretty_N_char (Z.to_N d).
Proof.
  intros Hd.
  assert (d = 0 ∨ d = 1 ∨ d = 2 ∨ d = 3 ∨ d = 4 ∨ d = 5 ∨ d = 6 ∨ d = 7
          ∨ d = 8 ∨ d = 9) as Hcases by lia.
  destruct_or!; subst d; reflexivity.
Qed.

Lemma digit_char_value d :
  (d < 10)%N → digit_value (pretty_N_char d) = Some (Z.of_N d).
Proof.
  intros Hd.
  assert (d = 0 ∨ d = 1 ∨ d = 2 ∨ d = 3 ∨ d = 4 ∨ d = 5 ∨ d = 6 ∨ d = 7
          ∨ d = 8 ∨ d = 9)%N as Hcases by lia.
  destruct_or!; subst d; reflexivity.
Qed.

Lemma digit_char_not_NUL d : pretty_N_char d ≠ NUL.
Proof. unfold pretty_N_char. repeat case_match; discriminate. Qed.

Lemma loop_digit val :
  0 < val → char_of_Z (Z.rem val 10 + 48) = pretty_N_char (Z.to_N val `mod` 10).
Proof.
  intros Hval. rewrite Z.rem_mod_nonneg by lia.
  rewrite digit_char by (apply Z.mod_pos_bound; lia).
  f_equal. rewrite Z2N.inj_mod by lia. reflexivity.
Qed.

(** ** Memory *)

Lemma store_Ok mem p c :
  0 <= p < Z.of_nat (length mem) →
  store mem p c = Ok (<[Z.to_nat p := Some c]> mem).
Proof.
  intros Hp. unfold store.
  destruct (0 <=? p) eqn:H1; [|lia].
  destruct (p <? Z.of_nat (length mem)) eqn:H2; [reflexivity|lia].
Qed.

Lemma drop_insert_here (mem : memory) p x :
  0 <= p < Z.of_nat (length mem) →
  drop (Z.to_nat p) (<[Z.to_nat p := x]> mem) = x :: drop (Z.to_nat (p + 1)) mem.
Proof.
  intros Hp.
  rewrite (drop_S _ x (Z.to_nat p)) by (apply list_lookup_insert_eq; lia).
  rewrite drop_insert_lt by lia.
  replace (Z.to_nat (p + 1)) with (S (Z.to_nat p)) by lia. reflexivity.
Qed.

Lemma c_string_insert_here mem p c s :
  0 <= p < Z.of_nat (length mem) → c ≠ NUL →
  c_string mem (p + 1) = Ok s →
  c_string (<[Z.to_nat p := Some c]> mem) p = Ok (String c s).
Proof.
  intros Hp Hc Hs. unfold c_string in *.
  destruct (0 <=? p) eqn:H1; [|lia]. destruct (0 <=? p + 1) eqn:H2; [|lia].
  rewrite drop_insert_here by lia. simpl.
  destruct (Ascii.eqb c NUL) eqn:Heq.
  { apply Ascii.eqb_eq in Heq. contradiction. }
  rewrite Hs. reflexivity.
Qed.

Lemma c_string_insert_NUL mem p :
  0 <= p < Z.of_nat (length mem) →
  c_string (<[Z.to_nat p := Some NUL]> mem) p = Ok EmptyString.
Proof.
  intros Hp. unfold c_string. destruct (0 <=? p) eqn:H1; [|lia].
  rewrite drop_insert_here by lia. reflexivity.
Qed.

(** A string found at [p] ends inside the memory object. *)
Lemma scan_length cells off s :
  scan cells off = Ok s → (String.length s < length cells)%nat.
Proof.
  revert off s. induction cells as [|[c|] cells IH]; intros off s; simpl;
    try discriminate.
  destruct (Ascii.eqb c NUL).
  - intros [= <-]. simpl. lia.
  - destruct (scan cells (off + 1)) as [s'|] eqn:Hs'; simpl; [|discriminate].
    intros [= <-]. simpl. specialize (IH _ _ Hs'). lia.
Qed.

Lemma c_string_length mem p s :
  c_string mem p = Ok s →
  0 <= p ∧ p + Z.of_nat (String.length s) < Z.of_nat (length mem).
Proof.
  unfold c_string. destruct (0 <=? p) eqn:H1; [|discriminate].
  intros Hs. apply scan_length in Hs. rewrite length_drop in Hs. lia.
Qed.

(** ** The decimal loop *)

(** Where the loop stops, what it leaves in [val], which cells it
    touched and what text now starts at [p + 1].  With [k] digits of
    room below [p] a value under [10^k] is consumed whole. *)
Lemma pow10_room k val : 0 < val → val < 10 ^ k → 0 <= k → 1 <= k ∧ Z.quot val 10 < 10 ^ (k - 1).
Proof.
  intros Hval Hlt Hk.
  assert (k ≠ 0) by (intros ->; simpl in Hlt; lia).
  split; [lia|].
  rewrite Z.quot_div_nonneg by lia.
  apply Z.div_lt_upper_bound; [lia|].
  replace k with (Z.succ (k - 1)) in Hlt by lia.
  rewrite Z.pow_succ_r in Hlt by lia. lia.
Qed.

Lemma decimal_loop_spec fuel : ∀ val p buf mem s,
  0 <= val → 0 <= buf → buf - 1 <= p → p < Z.of_nat (length mem) →
  p - buf + 1 <= Z.of_nat fuel →
  c_string mem (p + 1) = Ok s →
  ∃ val' p' mem' s',
    decimal_loop fuel val p buf mem = Ok (val', p', mem')
    ∧ buf - 1 <= p' <= p
    ∧ length mem' = length mem
    ∧ (∀ i : nat, Z.of_nat i <= p' ∨ p < Z.of_nat i → mem' !! i = mem !! i)
    ∧ c_string mem' (p' + 1) = Ok s'
    ∧ Z.of_nat (String.length s') = Z.of_nat (String.length s) + (p - p')
    ∧ pretty_N_go (Z.to_N val') s' = pretty_N_go (Z.to_N val) s
    ∧ (∀ k, 0 <= k <= p - buf + 1 → val < 10 ^ k → val' = 0 ∧ p - k <= p').
Proof.
  induction fuel as [|fuel IH]; intros val p buf mem s Hval Hbuf Hp Hlen Hfuel Hs;
    simpl.
  - assert (p = buf - 1) as -> by lia.
    exists val, (buf - 1), mem, s.
    replace (buf <=? buf - 1) with false by lia. rewrite andb_false_r.
    split_and!; try done; try lia.
    intros k Hk Hlt. assert (k = 0) as -> by lia. simpl in Hlt. lia.
  - destruct (0 <? val) eqn:Hv; simpl.
    2:{ exists val, p, mem, s. split_and!; try done; try lia. }
    destruct (buf <=? p) eqn:Hb; simpl.
    2:{ exists val, p, mem, s. split_and!; try done; try lia.
        intros k Hk Hlt. assert (k = 0) as -> by lia. simpl in Hlt. lia. }
    rewrite store_Ok by lia. simpl.
    rewrite loop_digit by lia.
    set (d := pretty_N_char (Z.to_N val `mod` 10)).
    set (mem1 := <[Z.to_nat p := Some d]> mem).
    destruct (IH (Z.quot val 10) (p - 1) buf mem1 (String d s))
      as (val' & p' & mem' & s' & Hrun & Hp' & Hlen' & Hframe & Hs' & Hsl & Hgo & Hroom).
    + apply Z.quot_pos; lia.
    + lia.
    + lia.
    + unfold mem1. rewrite length_insert. lia.
    + lia.
    + replace (p - 1 + 1) with p by lia. unfold mem1.
      apply c_string_insert_here; [lia|apply digit_char_not_NUL|done].
    + exists val', p', mem', s'. rewrite Hrun.
      split_and!; try done; try lia.
      * rewrite Hlen'. unfold mem1. apply length_insert.
      * intros i Hi. rewrite Hframe by lia. unfold mem1.
        apply list_lookup_insert_ne. lia.
      * rewrite Hsl. simpl. lia.
      * rewrite Hgo. rewrite Z2N.inj_quot by lia.
        symmetry. apply pretty_N_go_step. lia.
      * intros k Hk Hlt.
        destruct (pow10_room k val) as [Hk1 Hq]; [lia|done|lia|].
        destruct (Hroom (k - 1)) as [? ?]; [lia|done|]. lia.
Qed.

Lemma decimal_loop_skip fuel val p buf mem :
  val <= 0 → decimal_loop fuel val p buf mem = Ok (val, p, mem).
Proof.
  intros Hval. destruct fuel; simpl;
    replace (0 <? val) with false by lia; reflexivity.
Qed.

Lemma pretty_pos val : 0 < val → pretty val = pretty_N_go (Z.to_N val) "".
Proof. destruct val as [|x|x]; try lia. intros _. reflexivity. Qed.

Lemma pretty_neg val :
  val < 0 → pretty val = String "-" (pretty_N_go (Z.to_N (- val)) "").
Proof. destruct val as [|x|x]; try lia. intros _. reflexivity. Qed.


(** ** Strings *)

Lemma append_cons c (s1 s2 : string) : String c s1 +:+ s2 = String c (s1 +:+ s2).
Proof. reflexivity. Qed.

Lemma append_empty_r (s : string) : s +:+ "" = s.
Proof. induction s as [|c s IH]; [done|]. rewrite append_cons, IH. done. Qed.

Lemma append_assoc (s1 s2 s3 : string) : (s1 +:+ s2) +:+ s3 = s1 +:+ (s2 +:+ s3).
Proof. induction s1 as [|c s1 IH]; [done|]. rewrite !append_cons, IH. done. Qed.

Lemma append_length (s1 s2 : string) :
  String.length (s1 +:+ s2) = (String.length s1 + String.length s2)%nat.
Proof.
  induction s1 as [|c s1 IH]; [done|].
  rewrite append_cons. cbn [String.length]. rewrite IH. done.
Qed.

(** ** The decimal converters *)

Lemma simple_itoa_run val mem buf buf_len :
  0 <= buf → 1 <= buf_len → buf + buf_len <= Z.of_nat (length mem) →
  ∃ start mem' s,
    simple_itoa val mem buf buf_len = Ok (start, mem')
    ∧ confined mem mem' buf buf_len
    ∧ c_string mem' start = Ok s
    ∧ buf <= start
    ∧ start + Z.of_nat (String.length s) = buf + buf_len - 1
    ∧ (in_int32 val → val ≠ INT32_MIN → 12 <= buf_len → s = pretty val).
Proof.
  intros Hbuf Hlen Hfit. unfold simple_itoa, confined.
  set (e := buf + buf_len - 1).
  rewrite store_Ok by lia. simpl.
  set (mem0 := <[Z.to_nat e := Some NUL]> mem).
  assert (length mem0 = length mem) as Hlen0 by apply length_insert.
  assert (c_string mem0 (e - 1 + 1) = Ok EmptyString) as Hs0.
  { replace (e - 1 + 1) with e by lia. apply c_string_insert_NUL. lia. }
  assert (∀ i : nat, Z.of_nat i < buf ∨ buf + buf_len <= Z.of_nat i →
                     mem0 !! i = mem !! i) as Hframe0.
  { intros i Hi. apply list_lookup_insert_ne. lia. }
  destruct ((val =? 0) && (buf <? e - 1)) eqn:Hzero.
  - (* the value is zero and there is room for its digit *)
    apply andb_true_iff in Hzero as [Hv Hroom].
    apply Z.eqb_eq in Hv as ->. apply Z.ltb_lt in Hroom.
    rewrite store_Ok by lia. simpl.
    eexists _, _, _. split; [reflexivity|].
    split_and!.
    + rewrite length_insert. done.
    + intros i Hi. rewrite list_lookup_insert_ne by lia. auto.
    + replace (e - 1 - 1 + 1) with (e - 1) by lia.
      apply c_string_insert_here; [lia|discriminate|done].
    + lia.
    + simpl. lia.
    + reflexivity.
  - set (sign := val <? 0).
    set (val1 := if sign then neg32 val else val).
    destruct (Z_le_gt_dec val1 0) as [Hnp|Hpos].
    + (* no digit is produced *)
      rewrite decimal_loop_skip by done. simpl.
      destruct (sign && (buf <=? e - 1)) eqn:Hsg.
      * apply andb_true_iff in Hsg as [Hsign Hroom]. apply Z.leb_le in Hroom.
        rewrite store_Ok by lia. simpl.
        eexists _, _, _. split; [reflexivity|]. split_and!.
        -- rewrite length_insert. done.
        -- intros i Hi. rewrite list_lookup_insert_ne by lia. auto.
        -- replace (e - 1 - 1 + 1) with (e - 1) by lia.
           apply c_string_insert_here; [lia|discriminate|done].
        -- lia.
        -- simpl. lia.
        -- intros Hrange Hmin _. exfalso.
           unfold sign in Hsign. apply Z.ltb_lt in Hsign.
           unfold val1, sign in Hnp.
           replace (val <? 0) with true in Hnp by lia.
           unfold in_int32 in Hrange.
           rewrite neg32_opp in Hnp by lia. lia.
      * eexists _, _, _. split; [reflexivity|]. split_and!; try done;
          try (simpl; lia).
        intros Hrange Hmin Hcap. exfalso.
        unfold sign, val1 in *.
        destruct (val <? 0) eqn:Hneg; simpl in *.
        -- destruct (buf <=? e - 1) eqn:Hb; [discriminate|lia].
        -- assert (val = 0) as -> by lia. simpl in Hzero.
           destruct (buf <? e - 1) eqn:Hb; [discriminate|lia].
    + (* the digit loop runs *)
      destruct (decimal_loop_spec (Z.to_nat (e - 1 - buf + 1)) val1 (e - 1) buf
                  mem0 EmptyString)
        as (val' & p' & mem' & s' & Hrun & Hp' & Hlen' & Hframe & Hs' & Hsl
            & Hgo & Hroom); try lia; try done.
      rewrite Hrun. simpl.
      assert (in_int32 val → val ≠ INT32_MIN → 12 <= buf_len →
              val1 = Z.abs val ∧ val' = 0 ∧ buf <= p' + (if sign then 0 else 1))
        as Htext.
      { intros Hrange Hmin Hcap. unfold in_int32, INT32_MIN, INT32_MAX in *.
        assert (val1 = Z.abs val) as Hval1.
        { unfold val1, sign. destruct (val <? 0) eqn:Hneg; [|lia].
          rewrite neg32_opp by (unfold INT32_MIN, INT32_MAX; lia). lia. }
        destruct (Hroom 10) as [-> Hp10]; [lia|lia|].
        split_and!; try done. destruct sign; lia. }
      destruct (sign && (buf <=? p')) eqn:Hsg.
      * apply andb_true_iff in Hsg as [Hsign Hb]. apply Z.leb_le in Hb.
        rewrite store_Ok by lia. simpl.
        eexists _, _, _. split; [reflexivity|]. split_and!.
        -- rewrite length_insert. lia.
        -- intros i Hi. rewrite list_lookup_insert_ne by lia.
           rewrite Hframe by lia. auto.
        -- replace (p' - 1 + 1) with p' by lia.
           apply c_string_insert_here; [lia|discriminate|done].
        -- lia.
        -- simpl. simpl in Hsl. lia.
        -- intros Hrange Hmin Hcap.
           destruct (Htext Hrange Hmin Hcap) as (Hval1 & -> & _).
           unfold sign in Hsign. apply Z.ltb_lt in Hsign.
           rewrite pretty_neg by done. f_equal.
           rewrite pretty_N_go_0 in Hgo. rewrite Hgo, Hval1. f_equal. lia.
      * eexists _, _, _. split; [reflexivity|]. split_and!; try done.
        -- lia.
        -- intros i Hi. rewrite Hframe by lia. auto.
        -- lia.
        -- simpl in Hsl. lia.
        -- intros Hrange Hmin Hcap.
           destruct (Htext Hrange Hmin Hcap) as (Hval1 & -> & Hb).
           destruct sign eqn:Hsign.
           { simpl in Hsg. apply Z.leb_gt in Hsg. lia. }
           unfold sign in Hsign. apply Z.ltb_ge in Hsign.
           rewrite pretty_pos by lia.
           rewrite pretty_N_go_0 in Hgo. rewrite Hgo, Hval1. f_equal. lia.
Qed.

Lemma simple_ulltoa_run val mem buf buf_len :
  0 <= buf → 1 <= buf_len → buf + buf_len <= Z.of_nat (length mem) →
  ∃ start mem' s,
    simple_ulltoa val mem buf buf_len = Ok (start, mem')
    ∧ confined mem mem' buf buf_len
    ∧ c_string mem' start = Ok s
    ∧ buf <= start
    ∧ start + Z.of_nat (String.length s) = buf + buf_len - 1
    ∧ (in_uint64 val → 21 <= buf_len → s = pretty val).
Proof.
  intros Hbuf Hlen Hfit. unfold simple_ulltoa, confined.
  set (e := buf + buf_len - 1).
  rewrite store_Ok by lia. simpl.
  set (mem0 := <[Z.to_nat e := Some NUL]> mem).
  assert (length mem0 = length mem) as Hlen0 by apply length_insert.
  assert (c_string mem0 (e - 1 + 1) = Ok EmptyString) as Hs0.
  { replace (e - 1 + 1) with e by lia. apply c_string_insert_NUL. lia. }
  assert (∀ i : nat, Z.of_nat i < buf ∨ buf + buf_len <= Z.of_nat i →
                     mem0 !! i = mem !! i) as Hframe0.
  { intros i Hi. apply list_lookup_insert_ne. lia. }
  destruct ((val =? 0) && (buf <? e - 1)) eqn:Hzero.
  - apply andb_true_iff in Hzero as [Hv Hroom].
    apply Z.eqb_eq in Hv as ->. apply Z.ltb_lt in Hroom.
    rewrite store_Ok by lia. simpl.
    eexists _, _, _. split; [reflexivity|].
    split_and!.
    + rewrite length_insert. done.
    + intros i Hi. rewrite list_lookup_insert_ne by lia. auto.
    + replace (e - 1 - 1 + 1) with (e - 1) by lia.
      apply c_string_insert_here; [lia|discriminate|done].
    + lia.
    + simpl. lia.
    + reflexivity.
  - destruct (Z_le_gt_dec val 0) as [Hnp|Hpos].
    + rewrite decimal_loop_skip by done. simpl.
      eexists _, _, _. split; [reflexivity|]. split_and!; try done;
        try (simpl; lia).
      intros [Hlo Hhi] Hcap. exfalso. assert (val = 0) as -> by lia.
      simpl in Hzero. apply Z.ltb_ge in Hzero. lia.
    + destruct (decimal_loop_spec (Z.to_nat (e - 1 - buf + 1)) val (e - 1) buf
                  mem0 EmptyString)
        as (val' & p' & mem' & s' & Hrun & Hp' & Hlen' & Hframe & Hs' & Hsl
            & Hgo & Hroom); try lia; try done.
      rewrite Hrun. simpl.
      eexists _, _, _. split; [reflexivity|]. split_and!; try done.
      * lia.
      * intros i Hi. rewrite Hframe by lia. auto.
      * lia.
      * simpl in Hsl. lia.
      * intros [Hlo Hhi] Hcap. unfold UINT64_MAX in Hhi.
        destruct (Hroom 20) as [-> _]; [lia|lia|].
        rewrite pretty_pos by lia.
        rewrite pretty_N_go_0 in Hgo. done.
Qed.

(** ** The hexadecimal converter *)

Lemma nibble_range val : 0 <= Z.land val 15 < 16.
Proof.
  change 15 with (Z.ones 4). rewrite Z.land_ones by lia.
  apply Z.mod_pos_bound. lia.
Qed.

Lemma nibble_cases d :
  0 <= d < 16 →
  d = 0 ∨ d = 1 ∨ d = 2 ∨ d = 3 ∨ d = 4 ∨ d = 5 ∨ d = 6 ∨ d = 7 ∨ d = 8
  ∨ d = 9 ∨ d = 10 ∨ d = 11 ∨ d = 12 ∨ d = 13 ∨ d = 14 ∨ d = 15.
Proof. lia. Qed.

(** The lookup table of the converter holds the lowercase digits. *)
Lemma hex_char_nibble d : 0 <= d < 16 → hex_char d = Ok (nibble_char d).
Proof.
  intros Hd. apply nibble_cases in Hd. destruct_or!; subst d; reflexivity.
Qed.

Lemma nibble_char_not_NUL d : 0 <= d < 16 → nibble_char d ≠ NUL.
Proof.
  intros Hd. apply nibble_cases in Hd. destruct_or!; subst d; discriminate.
Qed.

Lemma nibble_char_value d :
  0 <= d < 16 → hex_digit_value (nibble_char d) = Some d.
Proof.
  intros Hd. apply nibble_cases in Hd. destruct_or!; subst d; reflexivity.
Qed.

Lemma nibble_char_zero d : 0 <= d < 16 → nibble_char d = "0"%char → d = 0.
Proof.
  intros Hd. apply nibble_cases in Hd.
  destruct_or!; subst d; try reflexivity; discriminate.
Qed.

(** After [j] iterations on [v0] the loop holds [v0 >> 4j] and has laid
    down the [j] lowest nibbles of [v0] in front of what was there. *)
Lemma hex_loop_spec fuel : ∀ v0 j p buf mem tl,
  0 <= v0 → 0 <= buf → buf - 1 <= p → p < Z.of_nat (length mem) →
  p - buf + 1 <= Z.of_nat fuel →
  c_string mem (p + 1) = Ok (hex_fixed j v0 +:+ tl) →
  ∃ (j' : nat) p' mem',
    hex_loop fuel (Z.shiftr v0 (4 * Z.of_nat j)) p buf mem
      = Ok (Z.shiftr v0 (4 * Z.of_nat j'), p', mem')
    ∧ buf - 1 <= p' <= p
    ∧ Z.of_nat j' = Z.of_nat j + (p - p')
    ∧ length mem' = length mem
    ∧ (∀ i : nat, Z.of_nat i <= p' ∨ p < Z.of_nat i → mem' !! i = mem !! i)
    ∧ c_string mem' (p' + 1) = Ok (hex_fixed j' v0 +:+ tl)
    ∧ (Z.shiftr v0 (4 * Z.of_nat j') = 0 ∨ p' = buf - 1)
    ∧ (p' < p → 0 < Z.shiftr v0 (4 * (Z.of_nat j' - 1))).
Proof.
  induction fuel as [|fuel IH]; intros v0 j p buf mem tl Hv0 Hbuf Hp Hlen Hfuel Hs;
    simpl.
  - assert (p = buf - 1) as -> by lia.
    exists j, (buf - 1), mem.
    replace (buf <=? buf - 1) with false by lia. rewrite andb_false_r.
    split_and!; first [done | lia | right; lia].
  - assert (0 <= Z.shiftr v0 (4 * Z.of_nat j)) as Hnn
      by (apply Z.shiftr_nonneg; done).
    destruct (0 <? Z.shiftr v0 (4 * Z.of_nat j)) eqn:Hv; simpl.
    2:{ exists j, p, mem. split_and!; first [done | lia | left; lia]. }
    destruct (buf <=? p) eqn:Hb; simpl.
    2:{ exists j, p, mem. split_and!; first [done | lia | right; lia]. }
    pose proof (nibble_range (Z.shiftr v0 (4 * Z.of_nat j))) as Hnib.
    rewrite hex_char_nibble by done. simpl.
    rewrite store_Ok by lia. simpl.
    set (d := nibble_char (Z.land (Z.shiftr v0 (4 * Z.of_nat j)) 15)).
    set (mem1 := <[Z.to_nat p := Some d]> mem).
    rewrite Z.shiftr_shiftr by lia.
    replace (4 * Z.of_nat j + 4) with (4 * Z.of_nat (S j)) by lia.
    destruct (IH v0 (S j) (p - 1) buf mem1 tl)
      as (j' & p' & mem' & Hrun & Hp' & Hj' & Hlen' & Hframe & Hs' & Hexit & Hlast);
      try lia.
    + unfold mem1. rewrite length_insert. lia.
    + replace (p - 1 + 1) with p by lia. unfold mem1. simpl.
      apply c_string_insert_here; [lia|apply nibble_char_not_NUL; done|done].
    + exists j', p', mem'. rewrite Hrun.
      split_and!; try done; try lia.
      * rewrite Hlen'. unfold mem1. apply length_insert.
      * intros i Hi. rewrite Hframe by lia. unfold mem1.
        apply list_lookup_insert_ne. lia.
      * intros _. destruct (Z_lt_ge_dec p' (p - 1)) as [Hlt|Hge]; [auto|].
        assert (Z.of_nat j' - 1 = Z.of_nat j) as -> by lia. lia.
Qed.

Lemma hex_loop_skip fuel val p buf mem :
  val <= 0 → hex_loop fuel val p buf mem = Ok (val, p, mem).
Proof.
  intros Hval. destruct fuel; simpl;
    replace (0 <? val) with false by lia; reflexivity.
Qed.

Lemma hex_fixed_length n v : String.length (hex_fixed n v) = n.
Proof. induction n as [|n IH]; simpl; [done|]. by rewrite IH. Qed.

Lemma built_init mem e :
  0 <= e < Z.of_nat (length mem) →
  built mem (<[Z.to_nat e := Some NUL]> mem) (e - 1) e EmptyString.
Proof.
  intros He. unfold built. split_and!.
  - apply length_insert.
  - intros i Hi. apply list_lookup_insert_ne. lia.
  - replace (e - 1 + 1) with e by lia. apply c_string_insert_NUL. done.
  - simpl. lia.
Qed.

Lemma built_store orig mem p e s c :
  built orig mem p e s → 0 <= p → c ≠ NUL →
  store mem p c = Ok (<[Z.to_nat p := Some c]> mem)
  ∧ built orig (<[Z.to_nat p := Some c]> mem) (p - 1) e (String c s).
Proof.
  intros (Hlen & Hframe & Hs & He) Hp Hc.
  pose proof (c_string_length _ _ _ Hs) as [_ Hin].
  split; [apply store_Ok; lia|]. unfold built. split_and!.
  - rewrite length_insert. done.
  - intros i Hi. rewrite list_lookup_insert_ne by lia. apply Hframe. lia.
  - replace (p - 1 + 1) with p by lia.
    apply c_string_insert_here; [lia|done|done].
  - simpl. lia.
Qed.

(** A step of the shape [if (cond) *p-- = c;]. *)
Lemma built_guarded_store orig mem p e s c (cond : bool) :
  built orig mem p e s → (cond = true → 0 <= p) → c ≠ NUL →
  ∃ p' mem' s',
    (if cond then mem ← store mem p c; Ok (p - 1, mem) else Ok (p, mem))
      = Ok (p', mem')
    ∧ built orig mem' p' e s'
    ∧ p' = (if cond then p - 1 else p)
    ∧ s' = (if cond then String c s else s).
Proof.
  intros Hb Hp Hc. destruct cond.
  - destruct (built_store _ _ _ _ _ c Hb) as [-> Hb']; [auto|done|].
    simpl. eauto 10.
  - eauto 10.
Qed.

Lemma built_hex_loop orig mem p e buf v0 :
  built orig mem p e EmptyString → 0 < v0 → 0 <= buf → buf - 1 <= p →
  ∃ (j : nat) p' mem',
    hex_loop (Z.to_nat (p - buf + 1)) v0 p buf mem
      = Ok (Z.shiftr v0 (4 * Z.of_nat j), p', mem')
    ∧ built orig mem' p' e (hex_fixed j v0)
    ∧ p' = p - Z.of_nat j
    ∧ buf - 1 <= p'
    ∧ (∀ n, 0 <= n <= p - buf + 1 → v0 < 2 ^ (4 * n) → j = nibbles v0).
Proof.
  intros (Hlen & Hframe & Hs & He) Hv0 Hbuf Hp.
  pose proof (c_string_length _ _ _ Hs) as [_ Hin].
  destruct (hex_loop_spec (Z.to_nat (p - buf + 1)) v0 0 p buf mem EmptyString)
    as (j & p' & mem' & Hrun & Hp' & Hj & Hlen' & Hframe' & Hs' & Hexit & Hlast);
    try lia; try done.
  simpl in Hrun. rewrite Z.shiftr_0_r in Hrun.
  exists j, p', mem'. split; [done|].
  rewrite append_empty_r in Hs'.
  split_and!; try lia.
  - unfold built. split_and!; try congruence.
    + intros i Hi. rewrite Hframe' by lia. apply Hframe. lia.
    + rewrite hex_fixed_length. simpl in He. lia.
  - intros n Hn Hlt.
    assert (Z.log2 v0 < 4 * n) as Hlog by (apply Z.log2_lt_pow2; lia).
    assert (0 <= Z.log2 v0) as Hlog0 by apply Z.log2_nonneg.
    assert (Z.shiftr v0 (4 * Z.of_nat j) = 0) as Hzero.
    { destruct Hexit as [?|Hstop]; [done|].
      apply Z.shiftr_eq_0; lia. }
    assert (j ≠ 0%nat) as Hj0.
    { intros ->. simpl in Hzero. rewrite Z.shiftr_0_r in Hzero. lia. }
    apply Z.shiftr_eq_0_iff in Hzero as [?|[_ Hup]]; [lia|].
    assert (4 * (Z.of_nat j - 1) <= Z.log2 v0) as Hlow.
    { destruct (Z_le_gt_dec (4 * (Z.of_nat j - 1)) (Z.log2 v0)); [done|].
      assert (Z.shiftr v0 (4 * (Z.of_nat j - 1)) = 0)
        by (apply Z.shiftr_eq_0; lia).
      assert (p' < p) by lia. specialize (Hlast ltac:(done)). lia. }
    unfold nibbles.
    assert (Z.log2 v0 / 4 = Z.of_nat j - 1) as ->; [|lia].
    symmetry. apply (Z.div_unique _ _ _ (Z.log2 v0 - 4 * (Z.of_nat j - 1))); lia.
Qed.

Lemma nibbles_bound v n : 0 < v → 0 <= n → v < 2 ^ (4 * n) → Z.of_nat (nibbles v) <= n.
Proof.
  intros Hv Hn Hlt.
  assert (Z.log2 v < 4 * n) as Hlog by (apply Z.log2_lt_pow2; lia).
  assert (0 <= Z.log2 v) as Hlog0 by apply Z.log2_nonneg.
  unfold nibbles.
  assert (Z.log2 v / 4 < n) by (apply Z.div_lt_upper_bound; lia).
  assert (0 <= Z.log2 v / 4) by (apply Z.div_pos; lia).
  lia.
Qed.

Lemma simple_ptr_to_hex_run val mem buf buf_len :
  0 <= buf → 1 <= buf_len → buf + buf_len <= Z.of_nat (length mem) →
  ∃ start mem' s,
    simple_ptr_to_hex val mem buf buf_len = Ok (start, mem')
    ∧ confined mem mem' buf buf_len
    ∧ c_string mem' start = Ok s
    ∧ buf <= start
    ∧ start + Z.of_nat (String.length s) = buf + buf_len - 1
    ∧ (∀ n, 1 <= n → 0 <= val < 2 ^ (4 * n) → n + 3 <= buf_len →
            s = ptr_text val).
Proof.
  intros Hbuf Hlen Hfit. unfold simple_ptr_to_hex.
  set (e := buf + buf_len - 1).
  rewrite store_Ok by lia. simpl.
  pose proof (built_init mem e ltac:(lia)) as Hb0.
  set (mem0 := <[Z.to_nat e := Some NUL]> mem) in *.
  (* the digit of a zero value *)
  destruct (built_guarded_store _ _ _ _ _ "0"%char
              ((val =? 0) && (buf <? e - 1)) Hb0)
    as (p1 & mem1 & s1 & -> & Hb1 & Hp1 & Hs1); [lia|discriminate|]. simpl.
  (* the digits of a non-zero value *)
  assert (∃ p2 mem2 s2 val2,
            hex_loop (Z.to_nat (p1 - buf + 1)) val p1 buf mem1 = Ok (val2, p2, mem2)
            ∧ built mem mem2 p2 e s2 ∧ buf - 1 <= p2
            ∧ (∀ n, 1 <= n → 0 <= val < 2 ^ (4 * n) → n + 3 <= buf_len →
                    s2 = hex_of val ∧ buf + 1 <= p2))
    as (p2 & mem2 & s2 & val2 & -> & Hb2 & Hp2 & Htext).
  { destruct (Z_le_gt_dec val 0) as [Hnp|Hpos].
    - rewrite hex_loop_skip by done.
      exists p1, mem1, s1, val. split_and!; try done.
      + destruct ((val =? 0) && (buf <? e - 1)) eqn:Hc; lia.
      + intros n Hn Hval Hcap. assert (val = 0) as -> by lia.
        replace ((0 =? 0) && (buf <? e - 1)) with true in * by lia.
        subst. split; [reflexivity|lia].
    - replace ((val =? 0) && (buf <? e - 1)) with false in * by lia.
      subst p1 s1.
      destruct (built_hex_loop _ _ _ _ buf val Hb1)
        as (j & p2 & mem2 & Hrun & Hb2 & Hp2 & Hlow & Hj); try lia.
      exists p2, mem2, (hex_fixed j val), (Z.shiftr val (4 * Z.of_nat j)).
      split_and!; try done.
      intros n Hn Hval Hcap.
      rewrite (Hj n) by lia.
      pose proof (nibbles_bound val n ltac:(lia) ltac:(lia) ltac:(lia)).
      rewrite (Hj n) in Hp2 by lia.
      unfold hex_of. replace (val =? 0) with false by lia. split; [done|lia]. }
  simpl.
  destruct (built_guarded_store _ _ _ _ _ "x"%char (buf <? p2) Hb2)
    as (p3 & mem3 & s3 & -> & Hb3 & Hp3 & Hs3); [lia|discriminate|]. simpl.
  destruct (built_guarded_store _ _ _ _ _ "0"%char (buf <=? p3) Hb3)
    as (p4 & mem4 & s4 & -> & Hb4 & Hp4 & Hs4); [lia|discriminate|]. simpl.
  exists (p4 + 1), mem4, s4. split; [done|].
  destruct Hb4 as (Hlen4 & Hframe4 & Hstr4 & He4).
  assert (buf - 1 <= p4) as Hlow4.
  { subst p4 p3. destruct (buf <? p2) eqn:?, (buf <=? _) eqn:?; lia. }
  split_and!; try done; try lia.
  - split; [done|]. intros i Hi. apply Hframe4. lia.
  - intros n Hn Hval Hcap. destruct (Htext n Hn Hval Hcap) as [-> Hroom].
    subst s4 s3 p3. replace (buf <? p2) with true by lia.
    replace (buf <=? p2 - 1) with true by lia. reflexivity.
Qed.

(** ** Reading the decimal text back *)

(** Parsing the digits that [pretty_N_go] puts in front of [s] shifts the
    accumulator by a power of ten and adds the number. *)
Lemma parse_pretty_go (v : N) :
  ∃ m, ∀ acc s,
    parse_digits acc (pretty_N_go v s) = parse_digits (acc * m + Z.of_N v) s.
Proof.
  induction (N.lt_wf_0 v) as [v _ IH].
  destruct (decide (v = 0)%N) as [->|Hv].
  - exists 1. intros acc s. rewrite pretty_N_go_0. f_equal. lia.
  - destruct (IH (v `div` 10)%N) as [m Hm].
    { apply N.div_lt; lia. }
    exists (10 * m). intros acc s.
    rewrite pretty_N_go_step by lia. rewrite Hm. simpl.
    rewrite digit_char_value by (apply N.mod_lt; lia).
    f_equal. rewrite (N.div_mod v 10) at 3 by lia. lia.
Qed.

Lemma parse_digits_pretty (v : N) :
  parse_digits 0 (pretty_N_go v "") = Some (Z.of_N v).
Proof. destruct (parse_pretty_go v) as [m ->]. simpl. f_equal. Qed.

Lemma pretty_N_go_cons (v : N) : ∀ c s,
  ∃ c' s', pretty_N_go v (String c s) = String c' s'.
Proof.
  induction (N.lt_wf_0 v) as [v _ IH]. intros c s.
  destruct (decide (v = 0)%N) as [->|Hv].
  - rewrite pretty_N_go_0. eauto.
  - rewrite pretty_N_go_step by lia. apply IH. apply N.div_lt; lia.
Qed.

(** The digits of a positive number: a non-empty string that does not
    start with a minus sign. *)
Lemma pretty_N_go_head (v : N) :
  (0 < v)%N →
  ∃ c s, pretty_N_go v "" = String c s ∧ c ≠ "-"%char.
Proof.
  intros Hv.
  destruct (pretty_N_go_cons (v `div` 10)%N (pretty_N_char (v `mod` 10)) "")
    as (c & s & Hcs).
  rewrite <- pretty_N_go_step in Hcs by done.
  exists c, s. split; [done|]. intros ->.
  apply (pretty_N_go_ne_dash (v `div` 10)%N
           (String (pretty_N_char (v `mod` 10)) "") s).
  - unfold pretty_N_char. repeat case_match; discriminate.
  - rewrite <- pretty_N_go_step by done. done.
Qed.

Lemma parse_decimal_pretty (val : Z) : parse_decimal (pretty val) = Some val.
Proof.
  destruct (Z.lt_trichotomy val 0) as [Hneg|[->|Hpos]].
  - rewrite pretty_neg by done.
    destruct (pretty_N_go_head (Z.to_N (- val))) as (c & s & Hcs & _); [lia|].
    unfold parse_decimal. simpl. rewrite Hcs, <- Hcs.
    rewrite parse_digits_pretty. simpl. f_equal. lia.
  - reflexivity.
  - rewrite pretty_pos by done.
    destruct (pretty_N_go_head (Z.to_N val)) as (c & s & Hcs & Hc); [lia|].
    unfold parse_decimal. rewrite Hcs.
    destruct (Ascii.eqb c "-") eqn:Heq.
    { apply Ascii.eqb_eq in Heq. done. }
    rewrite <- Hcs, parse_digits_pretty. f_equal. lia.
Qed.

(** ** Reading the hexadecimal text back *)

Lemma parse_hex_fixed n : ∀ v acc,
  0 <= v →
  parse_hex acc (hex_fixed n v) = Some (acc * 16 ^ Z.of_nat n + v mod 16 ^ Z.of_nat n).
Proof.
  induction n as [|n IH]; intros v acc Hv.
  - simpl. rewrite Z.mod_1_r. f_equal. lia.
  - cbn [hex_fixed parse_hex].
    rewrite nibble_char_value by apply nibble_range.
    rewrite IH by done. f_equal.
    change 15 with (Z.ones 4). rewrite Z.land_ones by lia.
    rewrite Z.shiftr_div_pow2 by lia.
    replace (2 ^ (4 * Z.of_nat n)) with (16 ^ Z.of_nat n)
      by (rewrite Z.pow_mul_r by lia; reflexivity).
    rewrite Nat2Z.inj_succ, Z.pow_succ_r by lia.
    set (b := 16 ^ Z.of_nat n).
    assert (0 < b) as Hb by (apply Z.pow_pos_nonneg; lia).
    change (2 ^ 4) with 16.
    rewrite (Z.mul_comm 16 b), Z.rem_mul_r by lia. lia.
Qed.

Lemma nibbles_log v :
  0 < v →
  4 * (Z.of_nat (nibbles v) - 1) <= Z.log2 v < 4 * Z.of_nat (nibbles v).
Proof.
  intros Hv. unfold nibbles.
  pose proof (Z.log2_nonneg v) as Hlog.
  assert (0 <= Z.log2 v / 4) by (apply Z.div_pos; lia).
  rewrite Z2Nat.id by lia.
  pose proof (Z.div_mod (Z.log2 v) 4 ltac:(lia)).
  pose proof (Z.mod_pos_bound (Z.log2 v) 4 ltac:(lia)). lia.
Qed.

Lemma parse_hex_of v : 0 < v → parse_hex 0 (hex_of v) = Some v.
Proof.
  intros Hv. unfold hex_of. replace (v =? 0) with false by lia.
  rewrite parse_hex_fixed by lia. f_equal.
  pose proof (nibbles_log v Hv) as [_ Hup].
  rewrite Z.mod_small; [lia|]. split; [lia|].
  change 16 with (2 ^ 4). rewrite <- Z.pow_mul_r by lia.
  apply Z.log2_lt_pow2; lia.
Qed.

(** The first digit of a non-zero value is not a zero. *)
Lemma hex_of_head v :
  0 < v → ∃ c rest, hex_of v = String c rest ∧ c ≠ "0"%char.
Proof.
  intros Hv. unfold hex_of. replace (v =? 0) with false by lia.
  pose proof (nibbles_log v Hv) as [Hlow Hup].
  destruct (nibbles v) as [|n] eqn:Hn.
  { pose proof (Z.log2_nonneg v). lia. }
  cbn [hex_fixed]. eexists _, _. split; [reflexivity|].
  set (top := Z.shiftr v (4 * Z.of_nat n)).
  assert (0 < top).
  { destruct (Z_le_gt_dec top 0) as [Hle|]; [|lia].
    assert (top = 0) as Htop
      by (pose proof (Z.shiftr_nonneg v (4 * Z.of_nat n)); unfold top in *; lia).
    apply Z.shiftr_eq_0_iff in Htop as [?|[_ ?]]; lia. }
  assert (top < 16).
  { unfold top. rewrite Z.shiftr_div_pow2 by lia.
    apply Z.div_lt_upper_bound; [apply Z.pow_pos_nonneg; lia|].
    change 16 with (2 ^ 4). rewrite <- Z.pow_add_r by lia.
    apply Z.log2_lt_pow2; lia. }
  intros Hc. apply nibble_char_zero in Hc; [|apply nibble_range].
  change 15 with (Z.ones 4) in Hc. rewrite Z.land_ones in Hc by lia.
  change (2 ^ 4) with 16 in Hc. rewrite Z.mod_small in Hc by lia. lia.
Qed.

Lemma hex_of_length v n :
  0 <= v → 1 <= n → v < 2 ^ (4 * n) →
  1 <= Z.of_nat (String.length (hex_of v)) <= n.
Proof.
  intros Hv Hn Hlt. unfold hex_of. destruct (v =? 0) eqn:Hz.
  - simpl. lia.
  - rewrite hex_fixed_length.
    pose proof (nibbles_bound v n ltac:(lia) ltac:(lia) Hlt).
    pose proof (nibbles_log v ltac:(lia)). pose proof (Z.log2_nonneg v). lia.
Qed.

(** ** The second signed converter *)

Lemma store_middle (pre : memory) x post c :
  store (pre ++ x :: post) (Z.of_nat (length pre)) c = Ok (pre ++ Some c :: post).
Proof.
  rewrite store_Ok by (rewrite length_app, length_cons; lia).
  rewrite Nat2Z.id. f_equal.
  rewrite insert_app_r_alt by lia. rewrite Nat.sub_diag. reflexivity.
Qed.

Lemma load_middle (pre : memory) c post :
  load (pre ++ Some c :: post) (Z.of_nat (length pre)) = Ok c.
Proof.
  unfold load. rewrite (proj2 (Z.leb_le 0 _)) by lia.
  rewrite Nat2Z.id, list_lookup_middle by done. reflexivity.
Qed.

Lemma string_of_list_ascii_app l1 l2 :
  string_of_list_ascii (l1 ++ l2)
  = string_of_list_ascii l1 +:+ string_of_list_ascii l2.
Proof. induction l1 as [|c l1 IH]; [done|]. simpl. rewrite IH. done. Qed.

Lemma scan_chars cs post off :
  Forall (λ c, c ≠ NUL) cs →
  scan ((Some <$> cs) ++ Some NUL :: post) off = Ok (string_of_list_ascii cs).
Proof.
  intros Hcs. revert off. induction Hcs as [|c cs Hc _ IH]; intros off.
  - reflexivity.
  - simpl. destruct (Ascii.eqb c NUL) eqn:Heq.
    { apply Ascii.eqb_eq in Heq. done. }
    rewrite IH. reflexivity.
Qed.

Lemma c_string_chars (pre : memory) cs post :
  Forall (λ c, c ≠ NUL) cs →
  c_string (pre ++ (Some <$> cs) ++ Some NUL :: post) (Z.of_nat (length pre))
  = Ok (string_of_list_ascii cs).
Proof.
  intros Hcs. unfold c_string.
  rewrite (proj2 (Z.leb_le 0 _)) by lia.
  rewrite Nat2Z.id, drop_app_length. apply scan_chars. done.
Qed.

(** The forward loop writes the digits of [val], least significant
    first, over the cells that follow [pre]. *)
Lemma forward_loop_spec fuel : ∀ val p p_end (pre rest : memory),
  0 <= val → p = Z.of_nat (length pre) → p <= p_end →
  p_end <= Z.of_nat (length (pre ++ rest)) →
  p_end - p <= Z.of_nat fuel →
  ∃ val' ds,
    forward_loop fuel val p p_end (pre ++ rest)
      = Ok (val', p + Z.of_nat (length ds),
            pre ++ (Some <$> ds) ++ drop (length ds) rest)
    ∧ p + Z.of_nat (length ds) <= p_end
    ∧ Forall (λ c, c ≠ NUL) ds
    ∧ (∀ s, pretty_N_go (Z.to_N val) s
            = pretty_N_go (Z.to_N val') (string_of_list_ascii (reverse ds) +:+ s))
    ∧ (∀ k, 0 <= k <= p_end - p → val < 10 ^ k → val' = 0)
    ∧ (0 < val → p < p_end → ds ≠ []).
Proof.
  induction fuel as [|fuel IH]; intros val p p_end pre rest Hval Hp Hend Hfit Hfuel;
    simpl.
  - assert (p_end = p) as -> by lia.
    replace (p <? p) with false by lia. rewrite andb_false_r.
    exists val, []. simpl. rewrite Z.add_0_r. split_and!; try done; try lia.
    intros k Hk Hlt. assert (k = 0) as -> by lia. simpl in Hlt. lia.
  - destruct (0 <? val) eqn:Hv; simpl.
    2:{ exists val, []. simpl. rewrite Z.add_0_r.
        split_and!; try done; try lia. }
    destruct (p <? p_end) eqn:Hb; simpl.
    2:{ exists val, []. simpl. rewrite Z.add_0_r.
        split_and!; try done; try lia.
        intros k Hk Hlt. assert (k = 0) as -> by lia. simpl in Hlt. lia. }
    destruct rest as [|x rest].
    { rewrite length_app in Hfit. simpl in Hfit. lia. }
    rewrite Hp, store_middle. simpl.
    rewrite loop_digit by lia.
    set (d := pretty_N_char (Z.to_N val `mod` 10)).
    replace (pre ++ Some d :: rest) with ((pre ++ [Some d]) ++ rest)
      by (rewrite <- app_assoc; done).
    destruct (IH (Z.quot val 10) (Z.of_nat (length pre) + 1) p_end
                (pre ++ [Some d]) rest)
      as (val' & ds & Hrun & Hle & Hnn & Hgo & Hroom & _).
    + apply Z.quot_pos; lia.
    + rewrite length_app. simpl. lia.
    + lia.
    + rewrite !length_app in *. simpl in *. lia.
    + lia.
    + exists val', (d :: ds). rewrite Hrun.
      split_and!.
      * f_equal. f_equal; [f_equal; rewrite length_cons; lia|].
        rewrite <- app_assoc. reflexivity.
      * rewrite length_cons. lia.
      * constructor; [apply digit_char_not_NUL|done].
      * intros s. rewrite reverse_cons, string_of_list_ascii_app, append_assoc.
        simpl string_of_list_ascii. rewrite <- Hgo.
        rewrite Z2N.inj_quot by lia. apply pretty_N_go_step. lia.
      * intros k Hk Hlt.
        destruct (pow10_room k val) as [Hk1 Hq]; [lia|done|lia|].
        apply (Hroom (k - 1)); [lia|done].
      * done.
Qed.

Lemma load_at (pre : memory) c post p :
  p = Z.of_nat (length pre) → load (pre ++ Some c :: post) p = Ok c.
Proof. intros ->. apply load_middle. Qed.

Lemma store_at (pre : memory) x post c p :
  p = Z.of_nat (length pre) →
  store (pre ++ x :: post) p c = Ok (pre ++ Some c :: post).
Proof. intros ->. apply store_middle. Qed.

(** One iteration of the reversal loop: the bytes at the two pointers
    change places. *)
Lemma swap_ends (pre X post : memory) a b p1 p2 :
  p1 = Z.of_nat (length pre) → p2 = p1 + 1 + Z.of_nat (length X) →
  let M := pre ++ Some a :: X ++ Some b :: post in
  let M1 := pre ++ Some b :: X ++ Some b :: post in
  let M2 := pre ++ Some b :: X ++ Some a :: post in
  load M p1 = Ok a ∧ load M p2 = Ok b
  ∧ store M p1 b = Ok M1 ∧ store M1 p2 a = Ok M2.
Proof.
  intros Hp1 Hp2 M M1 M2. split_and!.
  - apply load_at. done.
  - unfold M. change (pre ++ Some a :: X ++ Some b :: post)
      with (pre ++ (Some a :: X) ++ Some b :: post).
    rewrite app_assoc. apply load_at. rewrite length_app, length_cons. lia.
  - apply store_at. done.
  - unfold M1, M2.
    change (pre ++ Some b :: X ++ Some b :: post)
      with (pre ++ (Some b :: X) ++ Some b :: post).
    change (pre ++ Some b :: X ++ Some a :: post)
      with (pre ++ (Some b :: X) ++ Some a :: post).
    rewrite !app_assoc. apply store_at. rewrite length_app, length_cons. lia.
Qed.

(** The reversal loop reverses in place the bytes between its two
    pointers. *)
Lemma reverse_loop_spec fuel : ∀ (l : list ascii) (pre post : memory) p1 p2,
  p1 = Z.of_nat (length pre) → p2 = p1 + Z.of_nat (length l) - 1 →
  (length l <= S (2 * fuel))%nat →
  reverse_loop fuel p1 p2 (pre ++ (Some <$> l) ++ post)
  = Ok (pre ++ (Some <$> reverse l) ++ post).
Proof.
  induction fuel as [|fuel IH]; intros l pre post p1 p2 Hp1 Hp2 Hlen.
  - simpl. replace (p1 <? p2) with false by lia.
    destruct l as [|a [|b l]]; simpl in Hlen; try lia; reflexivity.
  - simpl. destruct (p1 <? p2) eqn:Hlt.
    2:{ destruct l as [|a [|b l]]; [reflexivity|reflexivity|].
        rewrite !length_cons in Hp2. lia. }
    destruct l as [|a l]; [simpl in Hp2; lia|].
    destruct l as [|b mid _] using rev_ind; [simpl in Hp2; lia|].
    rewrite length_cons, length_app in Hp2, Hlen.
    cbn [length] in Hp2, Hlen.
    rewrite fmap_cons, fmap_app. simpl.
    rewrite <- (app_assoc (Some <$> mid)). simpl.
    destruct (swap_ends pre (Some <$> mid) post a b p1 p2)
      as (Hl1 & Hl2 & Hs1 & Hs2); [done|rewrite length_fmap; lia|].
    simpl in Hl1, Hl2, Hs1, Hs2.
    rewrite Hl1. simpl. rewrite Hl2. simpl. rewrite Hs1. simpl.
    rewrite Hs2. simpl.
    change (pre ++ Some b :: (Some <$> mid) ++ Some a :: post)
      with (pre ++ [Some b] ++ (Some <$> mid) ++ Some a :: post).
    rewrite app_assoc.
    rewrite (IH mid (pre ++ [Some b]) (Some a :: post)).
    + f_equal. rewrite reverse_cons, reverse_snoc.
      rewrite <- !app_assoc. simpl. rewrite fmap_app. simpl.
      rewrite <- app_assoc. reflexivity.
    + rewrite length_app. simpl. lia.
    + lia.
    + lia.
Qed.

(** The part of [minimal_itoa_for_signals] that follows the sign: digits
    forward, terminator, reversal in place. *)
Lemma minimal_itoa_digits val (mem0 pre rest : memory) buf buf_size :
  mem0 = pre ++ rest →
  0 < val < 10 ^ 10 → buf = Z.of_nat (length pre) → 11 <= buf_size →
  buf + buf_size <= Z.of_nat (length (pre ++ rest)) →
  ∃ post,
    (let p := buf in
     let p_end := buf + buf_size - 1 in
     '(_, p, mem) ← forward_loop (Z.to_nat (p_end - p)) val p p_end mem0;
     '(p, mem) ← (if (p =? buf) && (p <? p_end)
                  then mem ← store mem p "0"%char; Ok (p + 1, mem)
                  else Ok (p, mem));
     mem ← store mem p NUL;
     let p1 := buf in
     let p2 := p - 1 in
     mem ← reverse_loop (Z.to_nat (p2 - p1)) p1 p2 mem;
     Ok (p, mem))
    = Ok (buf + Z.of_nat (String.length (pretty_N_go (Z.to_N val) "")),
          pre ++ (Some <$> list_ascii_of_string (pretty_N_go (Z.to_N val) ""))
              ++ Some NUL :: post).
Proof.
  intros -> Hval Hbuf Hsize Hfit. cbv zeta.
  destruct (forward_loop_spec (Z.to_nat (buf + buf_size - 1 - buf)) val buf
              (buf + buf_size - 1) pre rest)
    as (val' & ds & Hrun & Hle & Hnn & Hgo & Hroom & Hne); try lia.
  rewrite Hrun. simpl.
  specialize (Hroom 10 ltac:(lia) ltac:(lia)). subst val'.
  specialize (Hne ltac:(lia) ltac:(lia)).
  specialize (Hgo EmptyString).
  rewrite pretty_N_go_0, append_empty_r in Hgo.
  assert (0 < length ds)%nat as Hds by (destruct ds; [done|simpl; lia]).
  replace (buf + Z.of_nat (length ds) =? buf) with false by lia. simpl.
  destruct (drop (length ds) rest) as [|x post] eqn:Hdrop.
  { apply (f_equal length) in Hdrop. rewrite length_drop in Hdrop.
    rewrite length_app in Hfit. simpl in Hdrop. lia. }
  exists post.
  rewrite app_assoc.
  rewrite store_at by (rewrite length_app, length_fmap; lia). simpl.
  rewrite <- app_assoc.
  rewrite (reverse_loop_spec _ ds pre (Some NUL :: post)); [|done|lia|lia].
  simpl. rewrite Hgo.
  rewrite list_ascii_of_string_of_list_ascii.
  assert (∀ l, String.length (string_of_list_ascii l) = length l) as Hsl.
  { intros l. induction l as [|c l IH]; simpl; [done|]. by rewrite IH. }
  rewrite Hsl, length_reverse. done.
Qed.

Lemma string_chars_not_NUL_pretty (v : N) : ∀ s,
  Forall (λ c, c ≠ NUL) (list_ascii_of_string s) →
  Forall (λ c, c ≠ NUL) (list_ascii_of_string (pretty_N_go v s)).
Proof.
  induction (N.lt_wf_0 v) as [v _ IH]. intros s Hs.
  destruct (decide (v = 0)%N) as [->|Hv].
  - rewrite pretty_N_go_0. done.
  - rewrite pretty_N_go_step by lia. apply IH; [apply N.div_lt; lia|].
    simpl. constructor; [apply digit_char_not_NUL|done].
Qed.

Lemma insert_swap_adjacent (mem : memory) p x y :
  0 <= p →
  <[Z.to_nat (p + 1) := y]> (<[Z.to_nat p := x]> mem)
  = <[Z.to_nat p := x]> (<[Z.to_nat (p + 1) := y]> mem).
Proof. intros Hp. apply list_insert_insert_ne. lia. Qed.

Lemma minimal_itoa_text val mem buf :
  0 <= buf → buf + 12 <= Z.of_nat (length mem) →
  in_int32 val → val ≠ INT32_MIN →
  ∃ mem',
    minimal_itoa_for_signals val mem buf 12
      = Ok (buf + Z.of_nat (String.length (pretty val)), mem')
    ∧ c_string mem' buf = Ok (pretty val).
Proof.
  intros Hbuf Hfit Hrange Hmin. unfold minimal_itoa_for_signals.
  unfold in_int32, INT32_MIN, INT32_MAX in *.
  change (12 <? 2) with false. change (12 <? 3) with false. cbv iota.
  rewrite andb_false_r.
  destruct (Z.lt_trichotomy val 0) as [Hneg|[->|Hpos]].
  - (* a minus sign, then the digits of [- val] *)
    replace (val =? 0) with false by lia.
    replace (val <? 0) with true by lia.
    rewrite store_Ok by lia. simpl.
    rewrite neg32_opp by (unfold INT32_MIN, INT32_MAX; lia).
    rewrite insert_take_drop by lia.
    change (take (Z.to_nat buf) mem ++ Some "-"%char :: drop (S (Z.to_nat buf)) mem)
      with (take (Z.to_nat buf) mem ++ [Some "-"%char] ++ drop (S (Z.to_nat buf)) mem).
    rewrite app_assoc.
    set (pre := take (Z.to_nat buf) mem ++ [Some "-"%char]).
    assert (length pre = S (Z.to_nat buf)) as Hpre.
    { unfold pre. rewrite length_app, length_take_le by lia. simpl. lia. }
    destruct (minimal_itoa_digits (- val) _ pre (drop (S (Z.to_nat buf)) mem)
                (buf + 1) (12 - 1) eq_refl) as [post Hrun]; try lia.
    { rewrite length_app, length_drop. lia. }
    cbv zeta in Hrun. rewrite Hrun. simpl.
    rewrite pretty_neg by done.
    eexists. split.
    + f_equal. f_equal. cbn [String.length]. lia.
    + unfold pre. rewrite <- app_assoc.
      change ([Some "-"%char] ++
              (Some <$> list_ascii_of_string (pretty_N_go (Z.to_N (- val)) "")) ++
              Some NUL :: post)
        with ((Some <$> list_ascii_of_string
                 (String "-" (pretty_N_go (Z.to_N (- val)) ""))) ++ Some NUL :: post).
      replace buf with (Z.of_nat (length (take (Z.to_nat buf) mem))) at 2
        by (rewrite length_take_le; lia).
      rewrite c_string_chars.
      * rewrite string_of_list_ascii_of_string. done.
      * simpl. constructor; [discriminate|].
        apply string_chars_not_NUL_pretty. constructor.
  - (* zero *)
    simpl (0 =? 0). cbv iota.
    rewrite store_Ok by lia. simpl.
    rewrite store_Ok by (rewrite length_insert; lia). simpl.
    eexists. split; [f_equal; f_equal; simpl; lia|].
    rewrite insert_swap_adjacent by done.
    apply c_string_insert_here; [rewrite length_insert; lia|discriminate|].
    apply c_string_insert_NUL. lia.
  - (* the digits of [val] *)
    replace (val =? 0) with false by lia.
    replace (val <? 0) with false by lia.
    simpl.
    destruct (minimal_itoa_digits val mem (take (Z.to_nat buf) mem)
                (drop (Z.to_nat buf) mem) buf 12) as [post Hrun]; try lia.
    { rewrite take_drop. done. }
    { rewrite length_take_le; lia. }
    { rewrite take_drop. lia. }
    cbv zeta in Hrun. rewrite Hrun. simpl.
    rewrite pretty_pos by done.
    eexists. split; [done|].
    replace buf with (Z.of_nat (length (take (Z.to_nat buf) mem))) at 2
      by (rewrite length_take_le; lia).
    rewrite c_string_chars.
    + rewrite string_of_list_ascii_of_string. done.
    + apply string_chars_not_NUL_pretty. constructor.
Qed.

(** ** The second signed converter, with any capacity: a run *)

Lemma forward_loop_skip fuel val p p_end mem :
  val <= 0 → forward_loop fuel val p p_end mem = Ok (val, p, mem).
Proof.
  intros Hval. destruct fuel; simpl;
    replace (0 <? val) with false by lia; reflexivity.
Qed.

(** Overwriting the cells that follow [pre] changes nothing outside a
    buffer that starts there and is long enough. *)
Lemma confined_overwrite (pre rest new : memory) buf buf_size :
  buf = Z.of_nat (length pre) →
  Z.of_nat (length new) <= buf_size → (length new <= length rest)%nat →
  confined (pre ++ rest) (pre ++ new ++ drop (length new) rest) buf buf_size.
Proof.
  intros Hbuf Hsize Hrest. unfold confined. split.
  - rewrite !length_app, length_drop. lia.
  - intros i [Hi|Hi].
    + rewrite !lookup_app_l by lia. done.
    + rewrite !lookup_app_r by (rewrite ?length_app; lia).
      rewrite lookup_drop. f_equal. lia.
Qed.

(** The end of [minimal_itoa_for_signals]: the terminator, then the
    reversal of the digits [ds] that the forward loop left after [pre]. *)
Lemma minimal_itoa_finish (pre rest : memory) (ds : list ascii) buf p :
  buf = Z.of_nat (length pre) → p = buf + Z.of_nat (length ds) →
  (length ds < length rest)%nat →
  (mem ← store (pre ++ (Some <$> ds) ++ drop (length ds) rest) p NUL;
   mem ← reverse_loop (Z.to_nat (p - 1 - buf)) buf (p - 1) mem;
   Ok (p, mem))
  = Ok (p, pre ++ ((Some <$> reverse ds) ++ [Some NUL])
             ++ drop (S (length ds)) rest).
Proof.
  intros Hbuf Hp Hlen.
  destruct (drop (length ds) rest) as [|x post] eqn:Hdrop.
  { apply (f_equal length) in Hdrop. rewrite length_drop in Hdrop.
    simpl in Hdrop. lia. }
  assert (drop (S (length ds)) rest = post) as ->.
  { replace (S (length ds)) with (length ds + 1)%nat by lia.
    rewrite <- drop_drop, Hdrop. done. }
  rewrite app_assoc.
  rewrite store_at by (rewrite length_app, length_fmap; lia). simpl.
  rewrite <- app_assoc.
  rewrite (reverse_loop_spec _ ds pre (Some NUL :: post)); [|done|lia|lia].
  simpl. rewrite <- app_assoc. done.
Qed.

(** The part of [minimal_itoa_for_signals] that follows the sign, on any
    value and with at least two bytes: it leaves a non-empty text and its
    terminator in the cells that follow [pre]. *)
Lemma minimal_itoa_tail val (mem0 pre rest : memory) buf buf_size :
  mem0 = pre ++ rest →
  buf = Z.of_nat (length pre) → 2 <= buf_size →
  buf + buf_size <= Z.of_nat (length (pre ++ rest)) →
  ∃ chars : list ascii,
    (let p := buf in
     let p_end := buf + buf_size - 1 in
     '(_, p, mem) ← forward_loop (Z.to_nat (p_end - p)) val p p_end mem0;
     '(p, mem) ← (if (p =? buf) && (p <? p_end)
                  then mem ← store mem p "0"%char; Ok (p + 1, mem)
                  else Ok (p, mem));
     mem ← store mem p NUL;
     let p1 := buf in
     let p2 := p - 1 in
     mem ← reverse_loop (Z.to_nat (p2 - p1)) p1 p2 mem;
     Ok (p, mem))
    = Ok (buf + Z.of_nat (length chars),
          pre ++ ((Some <$> chars) ++ [Some NUL])
              ++ drop (S (length chars)) rest)
    ∧ chars ≠ []
    ∧ Z.of_nat (length chars) <= buf_size - 1
    ∧ Forall (λ c, c ≠ NUL) chars.
Proof.
  intros -> Hbuf Hsize Hfit. cbv zeta. rewrite length_app in Hfit.
  destruct (Z_le_gt_dec val 0) as [Hnp|Hpos].
  - (* no digit: a zero is put in *)
    rewrite forward_loop_skip by done. simpl.
    rewrite Z.eqb_refl. rewrite (proj2 (Z.ltb_lt buf _)) by lia. simpl.
    destruct rest as [|x rest]; [simpl in Hfit; lia|].
    rewrite store_at by done. simpl.
    exists ["0"%char].
    change (pre ++ Some "0"%char :: rest)
      with (pre ++ (Some <$> ["0"%char]) ++ drop (length ["0"%char]) (x :: rest)).
    rewrite (minimal_itoa_finish pre (x :: rest) ["0"%char] buf (buf + 1));
      [|done|simpl; lia|simpl in *; lia].
    split_and!; try done.
    + simpl. lia.
    + repeat constructor. discriminate.
  - destruct (forward_loop_spec (Z.to_nat (buf + buf_size - 1 - buf)) val buf
                (buf + buf_size - 1) pre rest)
      as (val' & ds & Hrun & Hle & Hnn & _ & _ & Hne); try lia.
    { rewrite length_app. lia. }
    rewrite Hrun. simpl.
    specialize (Hne ltac:(lia) ltac:(lia)).
    assert (0 < length ds)%nat by (destruct ds; [done|simpl; lia]).
    replace (buf + Z.of_nat (length ds) =? buf) with false by lia. simpl.
    exists (reverse ds).
    rewrite (minimal_itoa_finish pre rest ds buf); [|done|done|lia].
    rewrite length_reverse.
    split_and!; try done.
    + intros Hnil. apply (f_equal length) in Hnil.
      rewrite length_reverse in Hnil. simpl in Hnil. lia.
    + lia.
    + apply Forall_reverse. done.
Qed.

Lemma string_of_chars_length (l : list ascii) :
  String.length (string_of_list_ascii l) = length l.
Proof. induction l as [|c l IH]; simpl; [done|]. by rewrite IH. Qed.

Lemma c_string_chars_at (pre : memory) cs post p :
  p = Z.of_nat (length pre) → Forall (λ c, c ≠ NUL) cs →
  c_string (pre ++ ((Some <$> cs) ++ [Some NUL]) ++ post) p
  = Ok (string_of_list_ascii cs).
Proof.
  intros -> Hcs. rewrite <- (app_assoc (Some <$> cs)).
  apply c_string_chars. done.
Qed.

Lemma confined_refl (mem : memory) buf buf_size : confined mem mem buf buf_size.
Proof. split; done. Qed.

(** A run of [minimal_itoa_for_signals], on any value and with any
    capacity: nothing outside the buffer changes; behind the guards the
    buffer comes back as it was, and past them a non-empty text and its
    terminator lie at the start of the buffer. *)
Lemma minimal_itoa_run (val : Z) (mem : memory) (buf buf_size : Z) :
  0 <= buf → buf + Z.max 0 buf_size <= Z.of_nat (length mem) →
  ∃ p mem',
    minimal_itoa_for_signals val mem buf buf_size = Ok (p, mem')
    ∧ confined mem mem' buf buf_size
    ∧ (if (buf_size <? 2) || ((val <? 0) && (buf_size <? 3))
       then p = buf ∧ mem' = mem
       else ∃ text,
              c_string mem' buf = Ok text
              ∧ text ≠ EmptyString
              ∧ p = buf + Z.of_nat (String.length text)
              ∧ p < buf + buf_size).
Proof.
  intros Hbuf Hfit. unfold minimal_itoa_for_signals.
  destruct (buf_size <? 2) eqn:Hsmall.
  { eexists _, _. split_and!; [done|apply confined_refl|done]. }
  apply Z.ltb_ge in Hsmall. cbn [orb].
  assert (mem = take (Z.to_nat buf) mem ++ drop (Z.to_nat buf) mem) as Hsplit
    by (rewrite take_drop; done).
  assert (length (take (Z.to_nat buf) mem) = Z.to_nat buf) as Hpre
    by (rewrite length_take_le; lia).
  destruct (val =? 0) eqn:Hzero.
  - (* zero *)
    replace (val <? 0) with false by lia. cbn [andb].
    rewrite store_Ok by lia. simpl.
    rewrite store_Ok by (rewrite length_insert; lia). simpl.
    eexists _, _. split_and!; [done| |].
    + split.
      * rewrite !length_insert. done.
      * intros i Hi. rewrite !list_lookup_insert_ne by lia. done.
    + exists "0". split_and!; try done; try (simpl; lia).
      rewrite insert_swap_adjacent by done.
      apply c_string_insert_here; [rewrite length_insert; lia|discriminate|].
      apply c_string_insert_NUL. lia.
  - destruct (val <? 0) eqn:Hneg; cbn [andb].
    + destruct (buf_size <? 3) eqn:Hthree.
      { eexists _, _. split_and!; first [done | apply confined_refl]. }
      apply Z.ltb_ge in Hthree.
      rewrite store_Ok by lia. simpl.
      rewrite insert_take_drop by lia.
      set (pre := take (Z.to_nat buf) mem) in *.
      set (rest := drop (S (Z.to_nat buf)) mem).
      destruct (minimal_itoa_tail (neg32 val)
                  (pre ++ Some "-"%char :: rest) (pre ++ [Some "-"%char]) rest
                  (buf + 1) (buf_size - 1))
        as (chars & Hrun & Hne & Hle & Hnn).
      { rewrite <- app_assoc. done. }
      { rewrite length_app. simpl. lia. }
      { lia. }
      { rewrite !length_app. unfold rest. rewrite length_drop. simpl. lia. }
      cbv zeta in Hrun. rewrite Hrun. simpl.
      eexists _, _. split; [done|].
      assert ((pre ++ [Some "-"%char])
                ++ ((Some <$> chars) ++ [Some NUL])
                ++ drop (S (length chars)) rest
              = pre ++ ((Some <$> "-"%char :: chars) ++ [Some NUL])
                    ++ drop (length ((Some <$> "-"%char :: chars) ++ [Some NUL]))
                         (drop (Z.to_nat buf) mem)) as ->.
      { rewrite <- !app_assoc. simpl. do 3 f_equal.
        unfold rest. rewrite !drop_drop. f_equal.
        rewrite ?length_app, ?length_fmap. simpl. f_equal. lia. }
      split.
      * rewrite Hsplit at 1. fold pre. apply confined_overwrite.
        -- lia.
        -- rewrite length_app, length_fmap. simpl. lia.
        -- rewrite length_app, length_fmap, length_drop. simpl. lia.
      * exists (string_of_list_ascii ("-"%char :: chars)).
        split_and!.
        -- apply c_string_chars_at; [lia|].
           constructor; [discriminate|done].
        -- discriminate.
        -- rewrite string_of_chars_length. simpl. lia.
        -- simpl. lia.
    + (* a positive value *)
      simpl.
      set (pre := take (Z.to_nat buf) mem) in *.
      set (rest := drop (Z.to_nat buf) mem) in *.
      destruct (minimal_itoa_tail val mem pre rest buf buf_size)
        as (chars & Hrun & Hne & Hle & Hnn); try done; try lia.
      { rewrite <- Hsplit. lia. }
      cbv zeta in Hrun. rewrite Hrun. simpl.
      eexists _, _. split; [done|].
      replace (S (length chars))
        with (length ((Some <$> chars) ++ [Some NUL]))
        by (rewrite length_app, length_fmap; simpl; lia).
      split.
      * rewrite Hsplit at 1. apply confined_overwrite.
        -- lia.
        -- rewrite length_app, length_fmap. simpl. lia.
        -- rewrite length_app, length_fmap. unfold rest.
           rewrite length_drop. simpl. lia.
      * exists (string_of_list_ascii chars).
        split_and!.
        -- apply c_string_chars_at; [lia|done].
        -- destruct chars; [done|discriminate].
        -- rewrite string_of_chars_length. done.
        -- lia.
Qed.

(** ** The converters: claims *)

(** C4 (as amended).  Each numeric converter, for every value and
    wherever the buffer lies inside its memory object, returns normally
    and changes no cell outside the [buf_len] bytes of the buffer, also
    when the capacity is too small for the full text: the three
    converters of the writers ([simple_itoa], [simple_ulltoa],
    [simple_ptr_to_hex]) given a capacity of at least one byte, and
    [minimal_itoa_for_signals] with any capacity, zero and negative ones
    included.  The three converters of the writers return the start of a
    string whose terminator lies inside the buffer.
    [minimal_itoa_for_signals] leaves a string at the start of the
    buffer, terminator inside, when it has at least two bytes (three for
    a negative value); with less, its guards return the buffer as it
    was, without a terminator. *)
Theorem converters_confined_to_buffer
    (int_val ull_val ptr_val : Z) (mem : memory) (buf buf_len : Z) :
  0 <= buf → buf + Z.max 0 buf_len <= Z.of_nat (length mem) →
  (1 <= buf_len →
   bounded_conversion simple_itoa int_val mem buf buf_len
   ∧ bounded_conversion simple_ulltoa ull_val mem buf buf_len
   ∧ bounded_conversion simple_ptr_to_hex ptr_val mem buf buf_len)
  ∧ ∃ p mem',
      minimal_itoa_for_signals int_val mem buf buf_len = Ok (p, mem')
      ∧ confined mem mem' buf buf_len
      ∧ (if (buf_len <? 2) || ((int_val <? 0) && (buf_len <? 3))
         then p = buf ∧ mem' = mem
         else terminated_within mem' buf buf buf_len).
Proof.
  intros Hbuf Hfit. split.
  - intros Hlen. unfold bounded_conversion, terminated_within.
    split_and!.
    + destruct (simple_itoa_run int_val mem buf buf_len)
        as (start & mem' & s & Hrun & Hconf & Hs & Hlow & Hend & _);
        [lia|lia|lia|].
      exists start, mem'. split_and!; [done|done|].
      exists s. split_and!; [done|lia|lia].
    + destruct (simple_ulltoa_run ull_val mem buf buf_len)
        as (start & mem' & s & Hrun & Hconf & Hs & Hlow & Hend & _);
        [lia|lia|lia|].
      exists start, mem'. split_and!; [done|done|].
      exists s. split_and!; [done|lia|lia].
    + destruct (simple_ptr_to_hex_run ptr_val mem buf buf_len)
        as (start & mem' & s & Hrun & Hconf & Hs & Hlow & Hend & _);
        [lia|lia|lia|].
      exists start, mem'. split_and!; [done|done|].
      exists s. split_and!; [done|lia|lia].
  - destruct (minimal_itoa_run int_val mem buf buf_len Hbuf Hfit)
      as (p & mem' & Hrun & Hconf & Hcase).
    exists p, mem'. split_and!; [done|done|].
    destruct ((buf_len <? 2) || ((int_val <? 0) && (buf_len <? 3)));
      [done|].
    destruct Hcase as (text & Hs & _ & Hp & Hin).
    exists text. split_and!; [done|lia|lia].
Qed.

(** A three-byte buffer in the middle of a five-byte object, too small
    for the texts of the three values: a negative [int], the largest
    [unsigned long long] and a 32-bit address. *)
Lemma converters_confined_to_buffer_witness :
  (bounded_conversion simple_itoa (-12345) fenced_memory 1 3
   ∧ bounded_conversion simple_ulltoa 18446744073709551615 fenced_memory 1 3
   ∧ bounded_conversion simple_ptr_to_hex 3735928559 fenced_memory 1 3)
  ∧ ∃ p mem',
      minimal_itoa_for_signals (-12345) fenced_memory 1 3 = Ok (p, mem')
      ∧ confined fenced_memory mem' 1 3
      ∧ terminated_within mem' 1 1 3.
Proof.
  destruct (converters_confined_to_buffer (-12345) 18446744073709551615
              3735928559 fenced_memory 1 3) as [Hwriters Hminimal];
    [lia|simpl; lia|].
  split; [apply Hwriters; lia|exact Hminimal].
Defined.

(** C4 (as stated) fails in two ways.  At capacity zero the three
    converters of the writers store the terminator one byte in front of
    the buffer: here the buffer is the empty range at offset 1 of a
    two-byte object, and the byte at offset 0 is overwritten by each of
    them.  And [minimal_itoa_for_signals] leaves no terminator where its
    guards apply: with one byte, and with two bytes for a negative
    value, it returns the buffer as it was, here three bytes that were
    never written, so that no string lies in the buffer. *)
Lemma converters_fail_at_small_capacity :
  simple_itoa 5 two_bytes 1 0 = Ok (0, [Some NUL; Some "B"%char])
  ∧ simple_ulltoa 5 two_bytes 1 0 = Ok (0, [Some NUL; Some "B"%char])
  ∧ simple_ptr_to_hex 5 two_bytes 1 0 = Ok (0, [Some NUL; Some "B"%char])
  ∧ ¬ bounded_conversion simple_itoa 5 two_bytes 1 0
  ∧ ¬ bounded_conversion simple_ulltoa 5 two_bytes 1 0
  ∧ ¬ bounded_conversion simple_ptr_to_hex 5 two_bytes 1 0
  ∧ minimal_itoa_for_signals 5 fenced_memory 1 1 = Ok (1, fenced_memory)
  ∧ minimal_itoa_for_signals (-5) fenced_memory 1 2 = Ok (1, fenced_memory)
  ∧ (∀ start, ¬ terminated_within fenced_memory start 1 1)
  ∧ (∀ start, ¬ terminated_within fenced_memory start 1 2).
Proof.
  split_and!; try reflexivity.
  1-3: intros (start & mem' & Hrun & [_ Hframe] & _);
       vm_compute in Hrun; injection Hrun as <- <-;
       specialize (Hframe 0%nat ltac:(lia)); discriminate.
  - intros start (s & Hs & Hlow & Hend).
    assert (start = 1) as -> by lia. vm_compute in Hs. discriminate.
  - intros start (s & Hs & Hlow & Hend).
    assert (start = 1 ∨ start = 2) as [-> | ->] by lia;
      vm_compute in Hs; discriminate.
Qed.

(** C5.  For every 32-bit value other than [INT32_MIN], the text
    [simple_itoa] leaves in the 12-byte buffer of [write_int32_val]
    parses back, as a decimal number, to the value. *)
Theorem simple_itoa_round_trip (val : Z) :
  in_int32 val → val ≠ INT32_MIN →
  ∃ str_val num_buf text,
    simple_itoa val (replicate 12 None) 0 12 = Ok (str_val, num_buf)
    ∧ c_string num_buf str_val = Ok text
    ∧ parse_decimal text = Some val.
Proof.
  intros Hrange Hmin.
  destruct (simple_itoa_run val (replicate 12 None) 0 12)
    as (start & mem' & s & Hrun & _ & Hs & _ & _ & Htext);
    [lia|lia|simpl; lia|].
  exists start, mem', s. split_and!; try done.
  rewrite Htext by (done || lia). apply parse_decimal_pretty.
Qed.

Lemma simple_itoa_round_trip_witness :
  ∃ str_val num_buf text,
    simple_itoa (-2147483647) (replicate 12 None) 0 12 = Ok (str_val, num_buf)
    ∧ c_string num_buf str_val = Ok text
    ∧ parse_decimal text = Some (-2147483647).
Proof.
  apply (simple_itoa_round_trip (-2147483647)).
  - unfold in_int32, INT32_MIN, INT32_MAX. lia.
  - unfold INT32_MIN. lia.
Defined.

(** C6.  For every unsigned 64-bit value, the text [simple_ulltoa]
    leaves in the 21-byte buffer of [write_uint64_val] parses back, as a
    decimal number, to the value. *)
Theorem simple_ulltoa_round_trip (val : Z) :
  in_uint64 val →
  ∃ str_val num_buf text,
    simple_ulltoa val (replicate 21 None) 0 21 = Ok (str_val, num_buf)
    ∧ c_string num_buf str_val = Ok text
    ∧ parse_decimal text = Some val.
Proof.
  intros Hrange.
  destruct (simple_ulltoa_run val (replicate 21 None) 0 21)
    as (start & mem' & s & Hrun & _ & Hs & _ & _ & Htext);
    [lia|lia|simpl; lia|].
  exists start, mem', s. split_and!; try done.
  rewrite Htext by (done || lia). apply parse_decimal_pretty.
Qed.

Lemma simple_ulltoa_round_trip_witness :
  ∃ str_val num_buf text,
    simple_ulltoa 18446744073709551615 (replicate 21 None) 0 21
      = Ok (str_val, num_buf)
    ∧ c_string num_buf str_val = Ok text
    ∧ parse_decimal text = Some 18446744073709551615.
Proof.
  apply (simple_ulltoa_round_trip 18446744073709551615).
  unfold in_uint64, UINT64_MAX. lia.
Defined.

(** C7.  For a pointer of [ptr_bytes] bytes, the text
    [simple_ptr_to_hex] leaves in the [ptr_bytes * 2 + 3]-byte buffer of
    [write_ptr_val] is ["0x"] followed by digits: the single digit ["0"]
    for the null value, and otherwise lowercase hexadecimal digits, most
    significant first, whose value is the pointer and whose first digit
    is not a zero. *)
Theorem simple_ptr_to_hex_text (ptr_bytes val : Z) :
  1 <= ptr_bytes → 0 <= val < 2 ^ (8 * ptr_bytes) →
  ∃ str_val ptr_buf digits,
    simple_ptr_to_hex val (replicate (Z.to_nat (ptr_buf_size ptr_bytes)) None)
      0 (ptr_buf_size ptr_bytes) = Ok (str_val, ptr_buf)
    ∧ c_string ptr_buf str_val = Ok ("0x" +:+ digits)
    ∧ (val = 0 → digits = "0")
    ∧ (val ≠ 0 →
       digits = hex_fixed (nibbles val) val
       ∧ parse_hex 0 digits = Some val
       ∧ ∃ c rest, digits = String c rest ∧ c ≠ "0"%char).
Proof.
  intros Hpb Hval. unfold ptr_buf_size.
  destruct (simple_ptr_to_hex_run val
              (replicate (Z.to_nat (ptr_bytes * 2 + 3)) None) 0 (ptr_bytes * 2 + 3))
    as (start & mem' & s & Hrun & _ & Hs & _ & _ & Htext);
    [lia|lia|rewrite length_replicate; lia|].
  exists start, mem', (hex_of val). split_and!; try done.
  - rewrite Hs. f_equal. apply (Htext (ptr_bytes * 2)); try lia.
    replace (4 * (ptr_bytes * 2)) with (8 * ptr_bytes) by lia. done.
  - intros ->. reflexivity.
  - intros Hnz. split_and!.
    + unfold hex_of. replace (val =? 0) with false by lia. done.
    + apply parse_hex_of. lia.
    + apply hex_of_head. lia.
Qed.

Lemma simple_ptr_to_hex_text_witness :
  ∃ str_val ptr_buf digits,
    simple_ptr_to_hex 3735928559 (replicate (Z.to_nat (ptr_buf_size 8)) None)
      0 (ptr_buf_size 8) = Ok (str_val, ptr_buf)
    ∧ c_string ptr_buf str_val = Ok ("0x" +:+ digits)
    ∧ (3735928559 = 0 → digits = "0")
    ∧ (3735928559 ≠ 0 →
       digits = hex_fixed (nibbles 3735928559) 3735928559
       ∧ parse_hex 0 digits = Some 3735928559
       ∧ ∃ c rest, digits = String c rest ∧ c ≠ "0"%char).
Proof.
  apply (simple_ptr_to_hex_text 8 3735928559); [lia|].
  change (2 ^ (8 * 8)) with 18446744073709551616. lia.
Defined.

(** C9.  For every 32-bit value other than [INT32_MIN] and a buffer of
    capacity 12, [minimal_itoa_for_signals] (whose text starts at the
    buffer and whose result points at the terminator) and [simple_itoa]
    (whose text ends at the end of the buffer and whose result points at
    its first character) produce the same null-terminated string, the
    decimal text of the value. *)
Theorem signed_converters_agree (val : Z) (mem : memory) (buf : Z) :
  0 <= buf → buf + 12 <= Z.of_nat (length mem) →
  in_int32 val → val ≠ INT32_MIN →
  ∃ terminator mem1 start mem2 text,
    minimal_itoa_for_signals val mem buf 12 = Ok (terminator, mem1)
    ∧ simple_itoa val mem buf 12 = Ok (start, mem2)
    ∧ c_string mem1 buf = Ok text
    ∧ c_string mem2 start = Ok text
    ∧ terminator = buf + Z.of_nat (String.length text)
    ∧ text = pretty val.
Proof.
  intros Hbuf Hfit Hrange Hmin.
  destruct (minimal_itoa_text val mem buf) as (mem1 & Hrun1 & Hs1); try done.
  destruct (simple_itoa_run val mem buf 12)
    as (start & mem2 & s & Hrun2 & _ & Hs2 & _ & _ & Htext); try lia.
  rewrite Htext in Hs2 by (done || lia).
  eexists _, mem1, start, mem2, (pretty val). split_and!; done.
Qed.

Lemma signed_converters_agree_witness :
  ∃ terminator mem1 start mem2 text,
    minimal_itoa_for_signals (-2147483647) (replicate 12 None) 0 12
      = Ok (terminator, mem1)
    ∧ simple_itoa (-2147483647) (replicate 12 None) 0 12 = Ok (start, mem2)
    ∧ c_string mem1 0 = Ok text
    ∧ c_string mem2 start = Ok text
    ∧ terminator = 0 + Z.of_nat (String.length text)
    ∧ text = pretty (-2147483647).
Proof.
  apply (signed_converters_agree (-2147483647) (replicate 12 None) 0).
  - lia.
  - simpl. lia.
  - unfold in_int32, INT32_MIN, INT32_MAX. lia.
  - unfold INT32_MIN. lia.
Defined.

(** ** The primitive writers *)

Lemma write_literal_emits K fd str : emits K fd str (write_literal K fd str).
Proof. intros t. reflexivity. Qed.

Lemma simple_itoa_min :
  ∃ str_val num_buf,
    simple_itoa INT32_MIN (replicate 12 None) 0 12 = Ok (str_val, num_buf)
    ∧ c_string num_buf str_val = Ok "-".
Proof. eexists _, _. split; vm_compute; reflexivity. Qed.

Lemma write_int32_val_emits K fd val :
  in_int32 val → emits K fd (int32_text val) (write_int32_val K fd val).
Proof.
  intros Hrange t. unfold write_int32_val, int32_text.
  destruct (val =? INT32_MIN) eqn:Hmin.
  - apply Z.eqb_eq in Hmin as ->.
    destruct simple_itoa_min as (str_val & num_buf & Hrun & Hs).
    unfold mbind, io_bind, lift. rewrite Hrun, Hs. reflexivity.
  - apply Z.eqb_neq in Hmin.
    destruct (simple_itoa_run val (replicate 12 None) 0 12)
      as (start & mem' & s & Hrun & _ & Hs & _ & _ & Htext);
      [lia|lia|simpl; lia|].
    rewrite Htext in Hs by (done || lia).
    unfold mbind, io_bind, lift. rewrite Hrun, Hs. reflexivity.
Qed.

Lemma write_uint64_val_emits K fd val :
  in_uint64 val → emits K fd (uint64_text val) (write_uint64_val K fd val).
Proof.
  intros Hrange t. unfold write_uint64_val, uint64_text.
  destruct (simple_ulltoa_run val (replicate 21 None) 0 21)
    as (start & mem' & s & Hrun & _ & Hs & _ & _ & Htext);
    [lia|lia|simpl; lia|].
  rewrite Htext in Hs by (done || lia).
  unfold mbind, io_bind, lift. rewrite Hrun, Hs. reflexivity.
Qed.

Lemma write_ptr_val_emits K ptr_bytes fd val :
  1 <= ptr_bytes → pointer_sized ptr_bytes val →
  emits K fd (ptr_text val) (write_ptr_val K ptr_bytes fd val).
Proof.
  intros Hpb Hval t. unfold write_ptr_val, ptr_buf_size, pointer_sized in *.
  destruct (simple_ptr_to_hex_run val
              (replicate (Z.to_nat (ptr_bytes * 2 + 3)) None) 0 (ptr_bytes * 2 + 3))
    as (start & mem' & s & Hrun & _ & Hs & _ & _ & Htext);
    [lia|lia|rewrite length_replicate; lia|].
  rewrite (Htext (ptr_bytes * 2)) in Hs; try lia.
  2:{ replace (4 * (ptr_bytes * 2)) with (8 * ptr_bytes) by lia. done. }
  unfold mbind, io_bind, lift. rewrite Hrun, Hs. reflexivity.
Qed.

(** ** Traces *)

Lemma replay_app K fd t requests1 requests2 :
  replay K fd t (requests1 ++ requests2)
  = replay K fd (replay K fd t requests1) requests2.
Proof.
  revert t. induction requests1 as [|data requests1 IH]; intros t; [done|].
  simpl. apply IH.
Qed.

Lemma tally_snoc_write t fd data res :
  tally (t ++ [EvWrite fd data res]) = accumulate (tally t) (to_int32 res).
Proof. unfold tally. rewrite foldl_snoc. reflexivity. Qed.

Lemma tally_snoc_fsync t fd : tally (t ++ [EvFsync fd]) = tally t.
Proof. unfold tally. rewrite foldl_snoc. reflexivity. Qed.

(** One step of the composer: a writer, then
    [if (res > 0) total_written += res;]. *)
Lemma emits_step K fd data (w : io Z) {A} (k : Z → io A) t :
  emits K fd data w →
  (res ← w; k (accumulate (tally t) res)) t
  = k (tally (replay K fd t [data])) (replay K fd t [data]).
Proof.
  intros Hw. unfold mbind, io_bind. rewrite Hw. simpl.
  rewrite tally_snoc_write. reflexivity.
Qed.

(** ** The frame loop *)

Lemma read_frame_Some (frames : list Z) i frame t :
  0 <= i → frames !! Z.to_nat i = Some frame →
  read_frame frames i t = Ok (frame, t).
Proof.
  intros Hi Hf. unfold read_frame, lift.
  rewrite (proj2 (Z.leb_le 0 i)) by done. rewrite Hf. reflexivity.
Qed.

(** The body of the loop for one frame: its requests are replayed and
    the total follows the trace. *)
Lemma frame_body_spec K ptr_bytes fd frame t :
  1 <= ptr_bytes → pointer_sized ptr_bytes frame →
  (if negb (frame =? 0) then
     res ← write_literal K fd "  ";
     let total_written := accumulate (tally t) res in
     res ← write_ptr_val K ptr_bytes fd frame;
     let total_written := accumulate total_written res in
     res ← write_literal K fd (String "010" "");
     let total_written := accumulate total_written res in
     mret total_written
   else
     res ← write_literal K fd ("  0x0 (nil)" +:+ String "010" "");
     let total_written := accumulate (tally t) res in
     mret total_written) t
  = Ok (tally (replay K fd t (frame_requests frame)),
        replay K fd t (frame_requests frame)).
Proof.
  intros Hpb Hframe. unfold frame_requests.
  destruct (frame =? 0) eqn:Hnull; cbn [negb].
  - rewrite (emits_step K fd _ _ (λ total, mret total))
      by apply write_literal_emits.
    reflexivity.
  - rewrite (emits_step K fd "  " _
               (λ total,
                  res ← write_ptr_val K ptr_bytes fd frame;
                  let total_written := accumulate total res in
                  res ← write_literal K fd (String "010" "");
                  let total_written := accumulate total_written res in
                  mret total_written))
      by apply write_literal_emits.
    rewrite (emits_step K fd (ptr_text frame) _
               (λ total,
                  res ← write_literal K fd (String "010" "");
                  let total_written := accumulate total res in
                  mret total_written))
      by (apply write_ptr_val_emits; done).
    rewrite (emits_step K fd LF _ (λ total, mret total))
      by apply write_literal_emits.
    reflexivity.
Qed.

(** From a state whose total is the tally of its trace, the loop emits
    some number [n] of the frames from index [i] on.  It leaves out
    frames only once the total has passed 4000, and it never went on
    after a frame that took the total past 4000. *)
Lemma frames_loop_spec K ptr_bytes fd frames frame_count :
  1 <= ptr_bytes →
  Forall (pointer_sized ptr_bytes) (take (Z.to_nat frame_count) frames) →
  frame_count <= Z.of_nat (length frames) →
  ∀ fuel i t,
    0 <= i → frame_count - i <= Z.of_nat fuel →
    ∃ n : nat,
      let t' := replay K fd t (frames_requests (take n (drop (Z.to_nat i) frames))) in
      frames_loop K ptr_bytes fuel fd frames frame_count i (tally t) t
        = Ok (tally t', t')
      ∧ i + Z.of_nat n <= Z.max i frame_count
      ∧ (i + Z.of_nat n < frame_count → 4000 < tally t')
      ∧ (∀ m : nat, (1 <= m < n)%nat →
           tally (replay K fd t
                    (frames_requests (take m (drop (Z.to_nat i) frames)))) <= 4000).
Proof.
  intros Hpb Hframes Hcount.
  induction fuel as [|fuel IH]; intros i t Hi Hfuel; simpl.
  - replace (i <? frame_count) with false by lia.
    exists 0%nat. simpl. split_and!; try done; try lia.
  - destruct (i <? frame_count) eqn:Hlt.
    2:{ exists 0%nat. simpl. split_and!; try done; try lia. }
    apply Z.ltb_lt in Hlt.
    destruct (lookup_lt_is_Some_2 frames (Z.to_nat i)) as [frame Hf]; [lia|].
    assert (pointer_sized ptr_bytes frame) as Hptr.
    { rewrite Forall_lookup in Hframes. apply (Hframes (Z.to_nat i)).
      rewrite lookup_take_lt by lia. done. }
    pose proof (drop_S _ _ _ Hf) as Hdrop.
    unfold mbind at 1, io_bind at 1. rewrite (read_frame_Some _ _ frame) by done.
    unfold mbind at 1, io_bind at 1.
    rewrite frame_body_spec by done.
    set (t1 := replay K fd t (frame_requests frame)).
    destruct (4000 <? tally t1) eqn:Hstop.
    + exists 1%nat. rewrite Hdrop. simpl. rewrite app_nil_r. fold t1.
      split_and!; try done; try lia.
    + destruct (IH (i + 1) t1) as (n & Hrun & Hn & Hout & Hin); try lia.
      replace (Z.to_nat (i + 1)) with (S (Z.to_nat i)) in * by lia.
      exists (S n). rewrite Hdrop. simpl. rewrite !replay_app. fold t1.
      split_and!; [done|lia|intros Hmore; apply Hout; lia|].
      intros m Hm. destruct m as [|m]; [lia|]. simpl.
      rewrite replay_app. fold t1.
      destruct m as [|m]; [simpl; lia|]. apply Hin. lia.
Qed.

(** ** The composer *)

Lemma bind_emits K fd data (w : io Z) {A} (k : Z → io A) t :
  emits K fd data w →
  (w ≫= k) t = k (to_int32 (K t fd data)) (replay K fd t [data]).
Proof. intros Hw. unfold mbind, io_bind. rewrite Hw. reflexivity. Qed.

Lemma accumulate_tally K fd t data :
  accumulate (tally t) (to_int32 (K t fd data)) = tally (replay K fd t [data]).
Proof. simpl. rewrite tally_snoc_write. reflexivity. Qed.

Lemma accumulate_tally_nil K fd data :
  accumulate 0 (to_int32 (K [] fd data)) = tally (replay K fd [] [data]).
Proof. apply (accumulate_tally K fd []). Qed.

(** One step of the straight-line part: run the writer, then fold its
    result into the tally of the longer trace. *)
Ltac composer_step lemma :=
  erewrite bind_emits by (apply lemma; done);
  cbv beta zeta; rewrite accumulate_tally.

(** What a call on a valid descriptor does, for any kernel: it sends
    the requests of the report with some number [n] of frames, then
    calls [fsync], and returns from the tally of its writes. *)
Lemma composer_spec K ptr_bytes fd signal_num timestamp thread_id frames frame_count :
  1 <= ptr_bytes → 0 <= fd →
  in_int32 signal_num → in_uint64 thread_id → in_int32 frame_count →
  frame_count <= Z.of_nat (length frames) →
  Forall (pointer_sized ptr_bytes) (take (Z.to_nat frame_count) frames) →
  ∃ n : nat,
    let header := header_requests signal_num timestamp thread_id frame_count in
    let t := replay K fd []
               (report_requests signal_num timestamp thread_id frame_count frames n) in
    write_minimal_crash_info_c K ptr_bytes fd signal_num timestamp thread_id
        frames frame_count []
      = Ok ((if 0 <? tally t then tally t else -1), t ++ [EvFsync fd])
    ∧ Z.of_nat n <= Z.max 0 frame_count
    ∧ (Z.of_nat n < frame_count →
       4000 < tally (replay K fd [] (header ++ frames_requests (take n frames))))
    ∧ (∀ m : nat, (1 <= m < n)%nat →
       tally (replay K fd [] (header ++ frames_requests (take m frames))) <= 4000).
Proof.
  intros Hpb Hfd Hsig Htid Hcount Hlen Hframes.
  unfold write_minimal_crash_info_c.
  rewrite (proj2 (Z.ltb_ge fd 0)) by done.
  rewrite (to_int32_id frame_count) by done.
  erewrite bind_emits by apply write_literal_emits.
  cbv beta zeta; rewrite accumulate_tally_nil.
  composer_step write_int32_val_emits.
  composer_step write_literal_emits.
  erewrite bind_emits by (apply write_int32_val_emits, to_int32_range).
  cbv beta zeta; rewrite accumulate_tally.
  composer_step write_literal_emits.
  composer_step write_uint64_val_emits.
  composer_step write_literal_emits.
  composer_step write_int32_val_emits.
  composer_step write_literal_emits.
  set (header := header_requests signal_num timestamp thread_id frame_count).
  lazymatch goal with
  | |- context [frames_loop _ _ _ _ _ _ _ (tally ?T)] =>
      change T with (replay K fd [] header)
  end.
  destruct (frames_loop_spec K ptr_bytes fd frames frame_count Hpb Hframes Hlen
              (Z.to_nat frame_count) 0 (replay K fd [] header))
    as (n & Hrun & Hn & Hout & Hin); [lia|lia|].
  cbv zeta in Hrun. simpl drop in *.
  exists n. cbv zeta.
  unfold mbind at 1, io_bind at 1. rewrite Hrun.
  rewrite <- replay_app.
  composer_step write_literal_emits.
  rewrite <- replay_app, <- app_assoc.
  split_and!.
  - reflexivity.
  - lia.
  - intros Hmore. rewrite replay_app. apply Hout. lia.
  - intros m Hm. rewrite replay_app. apply Hin. done.
Qed.

(** ** Traces of a kernel that never fails *)

Lemma total_length_nonneg requests : 0 <= total_length requests.
Proof. induction requests as [|data requests IH]; simpl; lia. Qed.

Lemma total_length_app requests1 requests2 :
  total_length (requests1 ++ requests2)
  = total_length requests1 + total_length requests2.
Proof. induction requests1 as [|data requests1 IH]; simpl; lia. Qed.

Lemma text_of_length requests :
  Z.of_nat (String.length (text_of requests)) = total_length requests.
Proof.
  induction requests as [|data requests IH]; [done|].
  cbn [text_of total_length]. rewrite append_length. lia.
Qed.

(** Without overflow the tally of a fully served sequence is its number
    of bytes. *)
Lemma tally_replay_full fd requests : ∀ t,
  0 <= tally t → tally t + total_length requests <= INT32_MAX →
  tally (replay full_kernel fd t requests) = tally t + total_length requests.
Proof.
  induction requests as [|data requests IH]; intros t Hlow Hhigh.
  - simpl. lia.
  - cbn [replay total_length] in *.
    pose proof (total_length_nonneg requests) as Hrest.
    assert (tally (t ++ [EvWrite fd data (full_kernel t fd data)])
            = tally t + Z.of_nat (String.length data)) as Hstep.
    { rewrite tally_snoc_write. unfold full_kernel, accumulate, add32.
      rewrite (to_int32_id (Z.of_nat _))
        by (unfold in_int32, INT32_MIN, INT32_MAX in *; lia).
      destruct (0 <? Z.of_nat (String.length data)) eqn:Hpos; [|lia].
      apply to_int32_id. unfold in_int32, INT32_MIN, INT32_MAX in *. lia. }
    rewrite IH; lia.
Qed.

Lemma substring_whole (s : string) : substring 0 (String.length s) s = s.
Proof. induction s as [|c s IH]; simpl; [done|]. by rewrite IH. Qed.

Lemma emitted_app fd t1 t2 :
  emitted fd (t1 ++ t2) = emitted fd t1 +:+ emitted fd t2.
Proof.
  induction t1 as [|[fd' data res|fd'] t1 IH]; simpl; try done.
  destruct ((fd' =? fd) && (0 <? res)); [|done].
  rewrite IH, append_assoc. done.
Qed.

Lemma emitted_replay_full fd requests : ∀ t,
  emitted fd (replay full_kernel fd t requests)
  = emitted fd t +:+ text_of requests.
Proof.
  induction requests as [|data requests IH]; intros t.
  - simpl. rewrite append_empty_r. done.
  - cbn [replay text_of]. rewrite IH, emitted_app, append_assoc. f_equal.
    unfold full_kernel. simpl. rewrite Z.eqb_refl. simpl.
    destruct data as [|c data]; [done|].
    rewrite (proj2 (Z.ltb_lt 0 _)) by (cbn [String.length]; lia).
    rewrite Nat2Z.id, substring_whole, append_empty_r. done.
Qed.

Lemma attempts_replay K fd requests : ∀ t,
  attempts (replay K fd t requests) = attempts t ++ requests.
Proof.
  induction requests as [|data requests IH]; intros t.
  - simpl. rewrite app_nil_r. done.
  - simpl. rewrite IH. unfold attempts. rewrite omap_app. simpl.
    rewrite <- app_assoc. done.
Qed.

Lemma replay_extends K fd requests : ∀ t,
  ∃ t', replay K fd t requests = t ++ t'.
Proof.
  induction requests as [|data requests IH]; intros t.
  - exists []. simpl. rewrite app_nil_r. done.
  - simpl. destruct (IH (t ++ [EvWrite fd data (K t fd data)])) as [t' ->].
    eexists. rewrite <- app_assoc. done.
Qed.

Lemma tally_no_success t : Forall (λ e, ¬ succeeded e) t → tally t = 0.
Proof.
  induction t as [|e t IH] using rev_ind; intros Hall; [done|].
  apply Forall_app in Hall as [Ht He]. rewrite Forall_singleton in He.
  destruct e as [fd data res|fd].
  - rewrite tally_snoc_write, IH by done. unfold accumulate.
    unfold succeeded in He.
    destruct (0 <? to_int32 res) eqn:Hpos; [|done].
    apply Z.ltb_lt in Hpos. exfalso. apply He. done.
  - rewrite tally_snoc_fsync. auto.
Qed.

(** ** Sizes of the texts *)

Lemma int32_text_length val :
  in_int32 val → Z.of_nat (String.length (int32_text val)) <= 11.
Proof.
  intros Hrange. unfold int32_text. destruct (val =? INT32_MIN) eqn:Hmin.
  - simpl. lia.
  - apply Z.eqb_neq in Hmin.
    destruct (simple_itoa_run val (replicate 12 None) 0 12)
      as (start & mem' & s & _ & _ & _ & Hlow & Hend & Htext);
      [lia|lia|simpl; lia|].
    rewrite <- Htext by (done || lia). lia.
Qed.

Lemma uint64_text_length val :
  in_uint64 val → Z.of_nat (String.length (uint64_text val)) <= 20.
Proof.
  intros Hrange. unfold uint64_text.
  destruct (simple_ulltoa_run val (replicate 21 None) 0 21)
    as (start & mem' & s & _ & _ & _ & Hlow & Hend & Htext);
    [lia|lia|simpl; lia|].
  rewrite <- Htext by (done || lia). lia.
Qed.

Lemma ptr_text_length ptr_bytes val :
  1 <= ptr_bytes → pointer_sized ptr_bytes val →
  3 <= Z.of_nat (String.length (ptr_text val)) <= ptr_bytes * 2 + 2.
Proof.
  intros Hpb Hval. unfold ptr_text, pointer_sized in *.
  rewrite append_length.
  pose proof (hex_of_length val (ptr_bytes * 2)) as Hhex.
  replace (4 * (ptr_bytes * 2)) with (8 * ptr_bytes) in Hhex by lia.
  specialize (Hhex ltac:(lia) ltac:(lia) ltac:(lia)).
  change (String.length "0x") with 2%nat. lia.
Qed.

Lemma header_length signal_num timestamp thread_id frame_count :
  in_int32 signal_num → in_uint64 thread_id → in_int32 frame_count →
  71 <= total_length (header_requests signal_num timestamp thread_id frame_count)
     <= 124.
Proof.
  intros Hsig Htid Hcount. unfold header_requests, header_with.
  cbn [total_length].
  pose proof (int32_text_length signal_num Hsig).
  pose proof (int32_text_length (to_int32 timestamp) (to_int32_range _)).
  pose proof (uint64_text_length thread_id Htid).
  pose proof (int32_text_length frame_count Hcount).
  change (String.length "Signal: ") with 8%nat.
  change (String.length (LF +:+ "Timestamp: ")) with 12%nat.
  change (String.length (LF +:+ "ThreadID: ")) with 11%nat.
  change (String.length (LF +:+ "Frames_count: ")) with 15%nat.
  change (String.length (LF +:+ "Frames (raw addresses):" +:+ LF)) with 25%nat.
  lia.
Qed.

Lemma frame_line_length ptr_bytes frame :
  1 <= ptr_bytes → pointer_sized ptr_bytes frame →
  6 <= total_length (frame_requests frame) <= max_frame_line ptr_bytes.
Proof.
  intros Hpb Hframe. unfold frame_requests, max_frame_line.
  destruct (frame =? 0).
  - cbn [total_length].
    change (String.length ("  0x0 (nil)" +:+ LF)) with 12%nat. lia.
  - cbn [total_length].
    pose proof (ptr_text_length ptr_bytes frame Hpb Hframe).
    change (String.length "  ") with 2%nat.
    change (String.length LF) with 1%nat. lia.
Qed.

Lemma frames_requests_app frames1 frames2 :
  frames_requests (frames1 ++ frames2)
  = frames_requests frames1 ++ frames_requests frames2.
Proof.
  induction frames1 as [|frame frames1 IH]; [done|].
  simpl. rewrite IH, app_assoc. done.
Qed.

(** Emitting one more frame adds at most one line. *)
Lemma frames_length_step ptr_bytes frames (n m : nat) :
  1 <= ptr_bytes → Forall (pointer_sized ptr_bytes) (take n frames) →
  (m < n)%nat →
  total_length (frames_requests (take m frames))
  <= total_length (frames_requests (take (S m) frames))
  <= total_length (frames_requests (take m frames)) + max_frame_line ptr_bytes.
Proof.
  intros Hpb Hframes Hm.
  destruct (frames !! m) as [frame|] eqn:Hf.
  - rewrite (take_S_r _ _ _ Hf), frames_requests_app, total_length_app.
    simpl. rewrite app_nil_r.
    assert (pointer_sized ptr_bytes frame) as Hptr.
    { rewrite Forall_lookup in Hframes. apply (Hframes m).
      rewrite lookup_take_lt by lia. done. }
    pose proof (frame_line_length ptr_bytes frame Hpb Hptr). lia.
  - apply lookup_ge_None in Hf.
    rewrite !take_ge by lia. unfold max_frame_line. lia.
Qed.

(** ** The end marker is unlike every other request *)

Lemma end_marker_head : ∃ rest, end_marker = String "-" (String "-" rest).
Proof. eexists. reflexivity. Qed.

Lemma pretty_not_marker (val : Z) : pretty val ≠ end_marker.
Proof.
  destruct end_marker_head as [rest ->]. intros Heq.
  destruct (Z.lt_trichotomy val 0) as [Hneg|[->|Hpos]].
  - rewrite pretty_neg in Heq by done.
    destruct (pretty_N_go_head (Z.to_N (- val))) as (c & s & Hcs & Hc); [lia|].
    rewrite Hcs in Heq. congruence.
  - discriminate.
  - rewrite pretty_pos in Heq by done.
    destruct (pretty_N_go_head (Z.to_N val)) as (c & s & Hcs & Hc); [lia|].
    rewrite Hcs in Heq. congruence.
Qed.

Lemma int32_text_not_marker (val : Z) : int32_text val ≠ end_marker.
Proof.
  unfold int32_text. destruct (val =? INT32_MIN).
  - discriminate.
  - apply pretty_not_marker.
Qed.

Lemma header_without_marker signal_num timestamp thread_id frame_count :
  end_marker ∉ header_requests signal_num timestamp thread_id frame_count.
Proof.
  unfold header_requests, header_with. intros Hin.
  repeat (apply elem_of_cons in Hin as [Heq|Hin];
          [first [ discriminate Heq
                 | symmetry in Heq; revert Heq;
                   first [apply int32_text_not_marker | apply pretty_not_marker] ]|]).
  apply elem_of_nil in Hin. done.
Qed.

Lemma frames_without_marker frames : end_marker ∉ frames_requests frames.
Proof.
  induction frames as [|frame frames IH]; simpl.
  - apply not_elem_of_nil.
  - apply not_elem_of_app. split; [|done].
    unfold frame_requests, ptr_text. destruct (frame =? 0); intros Hin.
    + apply list_elem_of_singleton in Hin. discriminate.
    + repeat (apply elem_of_cons in Hin as [Heq|Hin]; [discriminate Heq|]).
      apply elem_of_nil in Hin. done.
Qed.

(** ** The composer: claims *)

Lemma pointer_sized_mono ptr_bytes frame :
  4 <= ptr_bytes → 0 <= frame < 2 ^ 32 → pointer_sized ptr_bytes frame.
Proof.
  intros Hpb Hframe. unfold pointer_sized. split; [lia|].
  assert (2 ^ 32 <= 2 ^ (8 * ptr_bytes)) by (apply Z.pow_le_mono_r; lia). lia.
Qed.

(** C1.  On a valid descriptor whose writes all succeed in full, the
    call with signal 11, timestamp 1700000000, thread 123456789012 and
    the two frames 0xDEADBEEF and null delivers exactly the report of the
    specification and returns its length, 150, whatever the size of a
    pointer (of at least four bytes). *)
Theorem report_example (ptr_bytes fd : Z) :
  4 <= ptr_bytes → 0 <= fd →
  ∃ t,
    write_minimal_crash_info_c full_kernel ptr_bytes fd
        11 1700000000 123456789012 [3735928559; 0] 2 []
      = Ok (150, t)
    ∧ emitted fd t = "Signal: 11
Timestamp: 1700000000
ThreadID: 123456789012
Frames_count: 2
Frames (raw addresses):
  0xdeadbeef
  0x0 (nil)
--- C Minimal Report End ---
"
    ∧ Z.of_nat (String.length (emitted fd t)) = 150.
Proof.
  intros Hpb Hfd.
  destruct (composer_spec full_kernel ptr_bytes fd 11 1700000000 123456789012
              [3735928559; 0] 2)
    as (n & Hrun & Hn & Hout & _); try lia; try done.
  { change (take (Z.to_nat 2) [3735928559; 0]) with [3735928559; 0].
    repeat (apply Forall_cons_2; [apply pointer_sized_mono; lia|]).
    apply Forall_nil_2. }
  cbv zeta in *.
  assert (n = 2%nat) as ->.
  { destruct (decide (Z.of_nat n < 2)) as [Hlt|]; [|lia].
    specialize (Hout Hlt).
    rewrite tally_replay_full in Hout;
      destruct n as [|[|n]]; try lia; vm_compute in Hout |- *;
      done || discriminate. }
  rewrite tally_replay_full in Hrun by (vm_compute; done || discriminate).
  eexists. split; [exact Hrun|].
  rewrite emitted_app, emitted_replay_full. simpl emitted.
  rewrite append_empty_r. split; reflexivity.
Qed.

Lemma report_example_witness :
  ∃ t,
    write_minimal_crash_info_c full_kernel 8 3
        11 1700000000 123456789012 [3735928559; 0] 2 []
      = Ok (150, t)
    ∧ emitted 3 t = "Signal: 11
Timestamp: 1700000000
ThreadID: 123456789012
Frames_count: 2
Frames (raw addresses):
  0xdeadbeef
  0x0 (nil)
--- C Minimal Report End ---
"
    ∧ Z.of_nat (String.length (emitted 3 t)) = 150.
Proof. apply (report_example 8 3); lia. Defined.

(** C2.  On a negative descriptor nothing is written (the trace stays
    empty) and the result is -1.  On any other descriptor, whatever the
    kernel answers, the composer sends the nine header requests, the
    requests of the first [n] frames and the end marker, in this order,
    calls [fsync], and returns the tally of the trace (each positive
    result added, the others ignored) when that tally is positive and -1
    otherwise; frames are left out ([n] below [frame_count]) only when
    the tally has passed 4000; and when no write succeeded every frame
    was attempted and the result is -1. *)
Theorem composer_return_contract
    (K : kernel) (ptr_bytes fd signal_num timestamp thread_id : Z)
    (frames : list Z) (frame_count : Z) :
  1 <= ptr_bytes →
  in_int32 signal_num → in_uint64 thread_id → in_int32 frame_count →
  frame_count <= Z.of_nat (length frames) →
  Forall (pointer_sized ptr_bytes) (take (Z.to_nat frame_count) frames) →
  (fd < 0 →
   write_minimal_crash_info_c K ptr_bytes fd signal_num timestamp thread_id
     frames frame_count [] = Ok (-1, []))
  ∧ (0 <= fd →
     ∃ (n : nat) (t : trace),
       write_minimal_crash_info_c K ptr_bytes fd signal_num timestamp thread_id
         frames frame_count []
         = Ok ((if 0 <? tally t then tally t else -1), t ++ [EvFsync fd])
       ∧ t = replay K fd []
               (report_requests signal_num timestamp thread_id frame_count frames n)
       ∧ Z.of_nat n <= Z.max 0 frame_count
       ∧ (Z.of_nat n < frame_count →
          4000 < tally (replay K fd []
                          (header_requests signal_num timestamp thread_id frame_count
                           ++ frames_requests (take n frames))))
       ∧ (Forall (λ e, ¬ succeeded e) t →
          Z.of_nat n = Z.max 0 frame_count ∧ tally t = 0)).
Proof.
  intros Hpb Hsig Htid Hcount Hlen Hframes. split.
  - intros Hfd. unfold write_minimal_crash_info_c.
    rewrite (proj2 (Z.ltb_lt fd 0)) by done. reflexivity.
  - intros Hfd.
    destruct (composer_spec K ptr_bytes fd signal_num timestamp thread_id
                frames frame_count)
      as (n & Hrun & Hn & Hout & _); try done.
    cbv zeta in *. exists n. eexists. split_and!; [exact Hrun|done|done|done|].
    intros Hfail. split; [|apply tally_no_success; done].
    destruct (decide (Z.of_nat n < frame_count)) as [Hlt|]; [|lia].
    specialize (Hout Hlt). unfold report_requests in Hfail.
    rewrite app_assoc, replay_app in Hfail.
    destruct (replay_extends K fd [end_marker]
                (replay K fd []
                   (header_requests signal_num timestamp thread_id frame_count
                    ++ frames_requests (take n frames)))) as [t' Ht'].
    rewrite Ht' in Hfail. apply Forall_app in Hfail as [Hfail _].
    rewrite (tally_no_success _ Hfail) in Hout. lia.
Qed.

Lemma composer_return_contract_witness :
  (3 < 0 →
   write_minimal_crash_info_c dead_kernel 8 3 11 1700000000 123456789012
     [3735928559; 0] 2 [] = Ok (-1, []))
  ∧ (0 <= 3 →
     ∃ (n : nat) (t : trace),
       write_minimal_crash_info_c dead_kernel 8 3 11 1700000000 123456789012
         [3735928559; 0] 2 []
         = Ok ((if 0 <? tally t then tally t else -1), t ++ [EvFsync 3])
       ∧ t = replay dead_kernel 3 []
               (report_requests 11 1700000000 123456789012 2 [3735928559; 0] n)
       ∧ Z.of_nat n <= Z.max 0 2
       ∧ (Z.of_nat n < 2 →
          4000 < tally (replay dead_kernel 3 []
                          (header_requests 11 1700000000 123456789012 2
                           ++ frames_requests (take n [3735928559; 0]))))
       ∧ (Forall (λ e, ¬ succeeded e) t →
          Z.of_nat n = Z.max 0 2 ∧ tally t = 0)).
Proof.
  apply (composer_return_contract dead_kernel 8 3 11 1700000000 123456789012
           [3735928559; 0] 2).
  - lia.
  - unfold in_int32, INT32_MIN, INT32_MAX. lia.
  - unfold in_uint64, UINT64_MAX. lia.
  - unfold in_int32, INT32_MIN, INT32_MAX. lia.
  - simpl. lia.
  - change (take (Z.to_nat 2) [3735928559; 0]) with [3735928559; 0].
    repeat (apply Forall_cons_2; [apply pointer_sized_mono; lia|]).
    apply Forall_nil_2.
Defined.

(** The totals at the frame boundaries of a fully served report stay
    within one line of the bound as long as the loop goes on. *)
Lemma prefix_bounds ptr_bytes fd (header : list string) frames (n : nat) :
  1 <= ptr_bytes <= 16 →
  total_length header <= 4000 →
  Forall (pointer_sized ptr_bytes) (take n frames) →
  (∀ m : nat, (1 <= m < n)%nat →
     tally (replay full_kernel fd [] (header ++ frames_requests (take m frames)))
     <= 4000) →
  ∀ m : nat, (m <= n)%nat →
    total_length (header ++ frames_requests (take m frames))
      <= 4000 + max_frame_line ptr_bytes
    ∧ ((m < n)%nat →
       total_length (header ++ frames_requests (take m frames)) <= 4000).
Proof.
  intros Hpb Hheader Hframes Hin.
  assert (12 <= max_frame_line ptr_bytes <= 37) as Hline
    by (unfold max_frame_line; lia).
  pose proof (total_length_nonneg header) as Hh0.
  induction m as [|m IH]; intros Hm.
  - simpl. rewrite app_nil_r. split; [lia|intros _; lia].
  - destruct IH as [_ IH]; [lia|]. specialize (IH ltac:(lia)).
    pose proof (frames_length_step ptr_bytes frames n m ltac:(lia) Hframes
                  ltac:(lia)) as Hstep.
    rewrite !total_length_app in *.
    split; [lia|]. intros Hlt.
    specialize (Hin (S m) ltac:(lia)).
    rewrite tally_replay_full in Hin.
    + change (tally []) with 0 in Hin. rewrite total_length_app in Hin. lia.
    + change (tally []) with 0. lia.
    + change (tally []) with 0. rewrite total_length_app. unfold INT32_MAX. lia.
Qed.

Lemma text_of_app requests1 requests2 :
  text_of (requests1 ++ requests2) = text_of requests1 +:+ text_of requests2.
Proof.
  induction requests1 as [|data requests1 IH]; [done|].
  simpl. rewrite IH, append_assoc. done.
Qed.

Lemma Forall_take_le {A} (P : A → Prop) (l : list A) (n m : nat) :
  (n <= m)%nat → Forall P (take m l) → Forall P (take n l).
Proof.
  intros Hnm Hall. replace n with (n `min` m)%nat by lia.
  rewrite <- take_take. apply Forall_take. done.
Qed.

(** C3.  With every write served in full, if the bytes of the header
    and of the first [k] frames already exceed 4000 for some [k] below
    [frame_count], then the loop emits only [n] frames, with [n] at most
    [k]: it stops at the first frame that takes the total past 4000 and
    leaves the others out.  The end marker is then requested once, as the
    last write, and is delivered; the result is the number of bytes
    delivered, positive and at most 4000 plus one frame line plus the
    end marker. *)
Theorem safety_bound_stops_frame_loop
    (ptr_bytes fd signal_num timestamp thread_id : Z)
    (frames : list Z) (frame_count : Z) (k : nat) :
  1 <= ptr_bytes <= 16 → 0 <= fd →
  in_int32 signal_num → in_uint64 thread_id → in_int32 frame_count →
  frame_count <= Z.of_nat (length frames) →
  Forall (pointer_sized ptr_bytes) (take (Z.to_nat frame_count) frames) →
  Z.of_nat k < frame_count →
  4000 < total_length
           (header_requests signal_num timestamp thread_id frame_count
            ++ frames_requests (take k frames)) →
  ∃ (n : nat) (ret : Z) (t : trace),
    let body := header_requests signal_num timestamp thread_id frame_count
                ++ frames_requests (take n frames) in
    write_minimal_crash_info_c full_kernel ptr_bytes fd signal_num timestamp
        thread_id frames frame_count []
      = Ok (ret, t ++ [EvFsync fd])
    ∧ (1 <= n <= k)%nat
    ∧ total_length
        (header_requests signal_num timestamp thread_id frame_count
         ++ frames_requests (take (n - 1) frames)) <= 4000
    ∧ 4000 < total_length body
    ∧ attempts t = body ++ [end_marker]
    ∧ (end_marker ∉ body)
    ∧ emitted fd t = text_of body +:+ end_marker
    ∧ ret = Z.of_nat (String.length (emitted fd t))
    ∧ 0 < ret <= 4000 + max_frame_line ptr_bytes
                 + Z.of_nat (String.length end_marker).
Proof.
  intros Hpb Hfd Hsig Htid Hcount Hlen Hframes Hk Hexceeds.
  destruct (composer_spec full_kernel ptr_bytes fd signal_num timestamp thread_id
              frames frame_count)
    as (n & Hrun & Hn & Hout & Hin); try done; try lia.
  cbv zeta in *.
  set (header := header_requests signal_num timestamp thread_id frame_count) in *.
  pose proof (header_length signal_num timestamp thread_id frame_count
                Hsig Htid Hcount) as Hheader. fold header in Hheader.
  assert (12 <= max_frame_line ptr_bytes <= 37) as Hline
    by (unfold max_frame_line; lia).
  assert (Forall (pointer_sized ptr_bytes) (take n frames)) as Hframes_n
    by (apply (Forall_take_le _ _ n (Z.to_nat frame_count)); [lia|done]).
  pose proof (prefix_bounds ptr_bytes fd header frames n Hpb ltac:(lia)
                Hframes_n Hin) as Hbounds.
  assert (n <= k)%nat as Hnk.
  { destruct (decide (n <= k)%nat) as [|Hgt]; [done|].
    destruct (Hbounds k ltac:(lia)) as [_ Hle]. specialize (Hle ltac:(lia)). lia. }
  destruct (Hbounds n ltac:(lia)) as [Hupper _].
  specialize (Hout ltac:(lia)).
  rewrite tally_replay_full in Hout
    by (change (tally []) with 0; unfold INT32_MAX; lia).
  change (tally []) with 0 in Hout.
  assert (1 <= n)%nat as Hn1.
  { destruct n as [|n]; [|lia].
    change (frames_requests (take 0 frames)) with (@nil string) in Hout.
    rewrite app_nil_r in Hout. lia. }
  destruct (Hbounds (n - 1)%nat ltac:(lia)) as [_ Hbefore].
  specialize (Hbefore ltac:(lia)).
  assert (Z.of_nat (String.length end_marker) = 29) as Hmarker by reflexivity.
  assert (total_length
            (report_requests signal_num timestamp thread_id frame_count frames n)
          = total_length (header ++ frames_requests (take n frames)) + 29)
    as Htotal.
  { unfold report_requests. fold header.
    rewrite app_assoc, total_length_app. simpl. lia. }
  rewrite tally_replay_full in Hrun
    by (change (tally []) with 0; unfold INT32_MAX; lia).
  change (tally []) with 0 in Hrun. rewrite Htotal in Hrun.
  rewrite (proj2 (Z.ltb_lt 0 _)) in Hrun by lia.
  eexists n, _, _. split; [exact Hrun|].
  assert (emitted fd
            (replay full_kernel fd []
               (report_requests signal_num timestamp thread_id frame_count frames n))
          = text_of (header ++ frames_requests (take n frames)) +:+ end_marker)
    as Hemitted.
  { rewrite emitted_replay_full. unfold report_requests. fold header.
    rewrite app_assoc, text_of_app. simpl. rewrite append_empty_r. done. }
  split_and!; try done; try lia.
  - rewrite attempts_replay. unfold report_requests. fold header.
    rewrite app_assoc. done.
  - apply not_elem_of_app. split.
    + apply header_without_marker.
    + apply frames_without_marker.
  - rewrite Hemitted, append_length, Nat2Z.inj_add, text_of_length. lia.
Qed.

Lemma safety_bound_stops_frame_loop_witness :
  ∃ (n : nat) (ret : Z) (t : trace),
    let body := header_requests 11 1700000000 123456789012 1000
                ++ frames_requests (take n (replicate 1000 3735928559)) in
    write_minimal_crash_info_c full_kernel 8 3 11 1700000000 123456789012
        (replicate 1000 3735928559) 1000 []
      = Ok (ret, t ++ [EvFsync 3])
    ∧ (1 <= n <= 301)%nat
    ∧ total_length
        (header_requests 11 1700000000 123456789012 1000
         ++ frames_requests (take (n - 1) (replicate 1000 3735928559))) <= 4000
    ∧ 4000 < total_length body
    ∧ attempts t = body ++ [end_marker]
    ∧ (end_marker ∉ body)
    ∧ emitted 3 t = text_of body +:+ end_marker
    ∧ ret = Z.of_nat (String.length (emitted 3 t))
    ∧ 0 < ret <= 4000 + max_frame_line 8 + Z.of_nat (String.length end_marker).
Proof.
  apply (safety_bound_stops_frame_loop 8 3 11 1700000000 123456789012
           (replicate 1000 3735928559) 1000 301).
  - lia.
  - lia.
  - unfold in_int32, INT32_MIN, INT32_MAX. lia.
  - unfold in_uint64, UINT64_MAX. lia.
  - unfold in_int32, INT32_MIN, INT32_MAX. lia.
  - rewrite length_replicate. lia.
  - apply Forall_take, Forall_replicate, pointer_sized_mono; lia.
  - lia.
  - vm_compute. reflexivity.
Defined.

(** C8 (as amended).  With every write served in full and a timestamp
    whose value narrowed to 32 bits is not [INT32_MIN], the report reads
    ["Signal: "], the signal, ["\nTimestamp: "], then the signed decimal
    text of the timestamp reduced modulo 2^32 into the [int32] range --
    not of the timestamp itself -- then ["\nThreadID: "] and the rest. *)
Theorem timestamp_field_is_narrowed
    (ptr_bytes fd signal_num timestamp thread_id : Z)
    (frames : list Z) (frame_count : Z) :
  1 <= ptr_bytes → 0 <= fd →
  in_int32 signal_num → in_uint64 thread_id → in_int32 frame_count →
  frame_count <= Z.of_nat (length frames) →
  Forall (pointer_sized ptr_bytes) (take (Z.to_nat frame_count) frames) →
  to_int32 timestamp ≠ INT32_MIN →
  ∃ (n : nat) (ret : Z) (t : trace),
    write_minimal_crash_info_c full_kernel ptr_bytes fd signal_num timestamp
        thread_id frames frame_count []
      = Ok (ret, t)
    ∧ emitted fd t
      = text_of (header_with (int32_text signal_num) (pretty (to_int32 timestamp))
                   (uint64_text thread_id) (int32_text frame_count)
                 ++ frames_requests (take n frames) ++ [end_marker]).
Proof.
  intros Hpb Hfd Hsig Htid Hcount Hlen Hframes Hts.
  destruct (composer_spec full_kernel ptr_bytes fd signal_num timestamp thread_id
              frames frame_count)
    as (n & Hrun & _); try done.
  cbv zeta in Hrun. eexists n, _, _. split; [exact Hrun|].
  rewrite emitted_app, emitted_replay_full. simpl emitted.
  rewrite append_empty_r.
  unfold report_requests, header_requests.
  unfold int32_text at 2.
  rewrite (proj2 (Z.eqb_neq _ _)) by done. reflexivity.
Qed.

(** The timestamp 2^32 + 1700000000 is reported as 1700000000. *)
Lemma timestamp_field_is_narrowed_witness :
  ∃ (n : nat) (ret : Z) (t : trace),
    write_minimal_crash_info_c full_kernel 8 3 11 5994967296
        123456789012 [3735928559; 0] 2 []
      = Ok (ret, t)
    ∧ emitted 3 t
      = text_of (header_with (int32_text 11) (pretty (to_int32 5994967296))
                   (uint64_text 123456789012) (int32_text 2)
                 ++ frames_requests (take n [3735928559; 0]) ++ [end_marker]).
Proof.
  apply (timestamp_field_is_narrowed 8 3 11 5994967296 123456789012
           [3735928559; 0] 2).
  - lia.
  - lia.
  - unfold in_int32, INT32_MIN, INT32_MAX. lia.
  - unfold in_uint64, UINT64_MAX. lia.
  - unfold in_int32, INT32_MIN, INT32_MAX. lia.
  - simpl. lia.
  - change (take (Z.to_nat 2) [3735928559; 0]) with [3735928559; 0].
    repeat (apply Forall_cons_2; [apply pointer_sized_mono; lia|]).
    apply Forall_nil_2.
  - vm_compute. discriminate.
Defined.

(** C8 (as stated) fails for the timestamp 2^31, the first second that
    no longer fits 32 bits: narrowed, it is [INT32_MIN], whose decimal
    text is ["-2147483648"], and the Timestamp field holds a lone minus
    sign. *)
Lemma timestamp_field_at_int32_min :
  ∃ t : trace,
    write_minimal_crash_info_c full_kernel 8 3 11 2147483648
        123456789012 [3735928559; 0] 2 []
      = Ok (141, t)
    ∧ emitted 3 t = "Signal: 11
Timestamp: -
ThreadID: 123456789012
Frames_count: 2
Frames (raw addresses):
  0xdeadbeef
  0x0 (nil)
--- C Minimal Report End ---
"
    ∧ pretty (to_int32 2147483648) = "-2147483648"
    ∧ ∀ n : nat,
        emitted 3 t
        ≠ text_of (header_with (int32_text 11) (pretty (to_int32 2147483648))
                     (uint64_text 123456789012) (int32_text 2)
                   ++ frames_requests (take n [3735928559; 0]) ++ [end_marker]).
Proof.
  eexists. split; [vm_compute; reflexivity|].
  split; [vm_compute; reflexivity|].
  split; [vm_compute; reflexivity|].
  intros n Heq. vm_compute in Heq. discriminate Heq.
Qed.

(** C10 (as amended).  For a frame count that is zero or negative, and
    not [INT32_MIN], and a valid descriptor, the composer sends the
    header -- whose Frames_count field is the decimal text of the count --
    and then directly the end marker, whatever the kernel answers and
    whatever the frame list is, the empty list included: no frame is
    read and no frame line is sent.  Served in full, the report is the
    header text followed by the end marker. *)
Theorem no_frames_when_count_not_positive
    (ptr_bytes fd signal_num timestamp thread_id : Z)
    (frames : list Z) (frame_count : Z) :
  1 <= ptr_bytes → 0 <= fd →
  in_int32 signal_num → in_uint64 thread_id →
  in_int32 frame_count → frame_count <= 0 → frame_count ≠ INT32_MIN →
  (∀ K : kernel,
     ∃ ret : Z,
       write_minimal_crash_info_c K ptr_bytes fd signal_num timestamp thread_id
           frames frame_count []
         = Ok (ret,
               replay K fd []
                 (frameless_requests signal_num timestamp thread_id frame_count)
               ++ [EvFsync fd])
       ∧ write_minimal_crash_info_c K ptr_bytes fd signal_num timestamp thread_id
           frames frame_count []
         = write_minimal_crash_info_c K ptr_bytes fd signal_num timestamp thread_id
             [] frame_count [])
  ∧ (∃ (ret : Z) (t : trace),
       write_minimal_crash_info_c full_kernel ptr_bytes fd signal_num timestamp
           thread_id frames frame_count []
         = Ok (ret, t)
       ∧ emitted fd t
         = text_of (frameless_requests signal_num timestamp thread_id frame_count)).
Proof.
  intros Hpb Hfd Hsig Htid Hcount Hnp Hmin.
  set (requests := frameless_requests signal_num timestamp thread_id frame_count).
  assert (∀ K frames',
            write_minimal_crash_info_c K ptr_bytes fd signal_num timestamp thread_id
              frames' frame_count []
            = Ok ((if 0 <? tally (replay K fd [] requests)
                   then tally (replay K fd [] requests) else -1),
                  replay K fd [] requests ++ [EvFsync fd])) as Hrun.
  { intros K frames'.
    destruct (composer_spec K ptr_bytes fd signal_num timestamp thread_id
                frames' frame_count)
      as (n & Hrun & Hn & _); try done; try lia.
    { replace (Z.to_nat frame_count) with 0%nat by lia. apply Forall_nil_2. }
    assert (n = 0%nat) as -> by lia.
    cbv zeta in Hrun. rewrite Hrun.
    unfold report_requests, header_requests, requests, frameless_requests.
    unfold int32_text at 3 6 9.
    rewrite (proj2 (Z.eqb_neq _ _)) by done. reflexivity. }
  split.
  - intros K. eexists. split; [apply Hrun|].
    rewrite (Hrun K frames), (Hrun K []). done.
  - eexists _, _. split; [apply Hrun|].
    rewrite emitted_app, emitted_replay_full. simpl emitted.
    rewrite append_empty_r. done.
Qed.

Lemma no_frames_when_count_not_positive_witness :
  (∀ K : kernel,
     ∃ ret : Z,
       write_minimal_crash_info_c K 8 3 11 1700000000 123456789012
           [3735928559; 0] (-3) []
         = Ok (ret,
               replay K 3 [] (frameless_requests 11 1700000000 123456789012 (-3))
               ++ [EvFsync 3])
       ∧ write_minimal_crash_info_c K 8 3 11 1700000000 123456789012
           [3735928559; 0] (-3) []
         = write_minimal_crash_info_c K 8 3 11 1700000000 123456789012
             [] (-3) [])
  ∧ (∃ (ret : Z) (t : trace),
       write_minimal_crash_info_c full_kernel 8 3 11 1700000000 123456789012
           [3735928559; 0] (-3) []
         = Ok (ret, t)
       ∧ emitted 3 t
         = text_of (frameless_requests 11 1700000000 123456789012 (-3))).
Proof.
  apply (no_frames_when_count_not_positive 8 3 11 1700000000 123456789012
           [3735928559; 0] (-3)).
  - lia.
  - lia.
  - unfold in_int32, INT32_MIN, INT32_MAX. lia.
  - unfold in_uint64, UINT64_MAX. lia.
  - unfold in_int32, INT32_MIN, INT32_MAX. lia.
  - lia.
  - unfold INT32_MIN. lia.
Defined.

(** C10 (as stated) fails for the frame count [INT32_MIN]: the
    Frames_count field holds a lone minus sign, not the decimal text
    ["-2147483648"] of the count. *)
Lemma frame_count_field_at_int32_min :
  ∃ t : trace,
    write_minimal_crash_info_c full_kernel 8 3 11 1700000000 123456789012
        [] (-2147483648) []
      = Ok (125, t)
    ∧ emitted 3 t = "Signal: 11
Timestamp: 1700000000
ThreadID: 123456789012
Frames_count: -
Frames (raw addresses):
--- C Minimal Report End ---
"
    ∧ pretty (-2147483648) = "-2147483648"
    ∧ emitted 3 t
      ≠ text_of (frameless_requests 11 1700000000 123456789012 (-2147483648)).
Proof.
  eexists. split; [vm_compute; reflexivity|].
  split; [vm_compute; reflexivity|].
  split; [vm_compute; reflexivity|].
  intros Heq. vm_compute in Heq. discriminate Heq.
Qed.

(** * Further properties of the converters *)

(** ** Decimal text that does not fit *)

Lemma decimal_loop_exit fuel : ∀ val p buf mem val' p' mem',
  0 <= val →
  decimal_loop fuel val p buf mem = Ok (val', p', mem') →
  0 <= val' ∧ (val' = 0 ∨ p' < buf).
Proof.
  induction fuel as [|fuel IH]; intros val p buf mem val' p' mem' Hval; simpl.
  - destruct ((0 <? val) && (buf <=? p)) eqn:Hcond; [discriminate|].
    intros [= <- <- <-]. split; [done|].
    apply andb_false_iff in Hcond as [Hc|Hc]; lia.
  - destruct ((0 <? val) && (buf <=? p)) eqn:Hcond.
    + destruct (store mem p _) as [mem1|f]; simpl; [|discriminate].
      apply IH. apply Z.quot_pos; lia.
    + intros [= <- <- <-]. split; [done|].
      apply andb_false_iff in Hcond as [Hc|Hc]; lia.
Qed.

Lemma pretty_N_go_suffix (v : N) : ∀ s, ∃ pre, pretty_N_go v s = pre +:+ s.
Proof.
  induction (N.lt_wf_0 v) as [v _ IH]. intros s.
  destruct (decide (v = 0)%N) as [->|Hv].
  - exists EmptyString. rewrite pretty_N_go_0. done.
  - rewrite pretty_N_go_step by lia.
    destruct (IH (v `div` 10)%N ltac:(apply N.div_lt; lia)
                (String (pretty_N_char (v `mod` 10)) s)) as [pre ->].
    exists (pre +:+ String (pretty_N_char (v `mod` 10)) EmptyString).
    rewrite append_assoc. done.
Qed.

(** The digit loop on a positive value, started right below the
    terminator: it leaves either all the digits, or, having run into the
    start of the buffer, the digits that fit, the lowest ones. *)
Lemma decimal_loop_text val e buf (mem : memory) :
  0 < val → 0 <= buf → buf <= e → e < Z.of_nat (length mem) →
  c_string mem e = Ok EmptyString →
  ∃ val' p' mem' s' pre,
    decimal_loop (Z.to_nat (e - 1 - buf + 1)) val (e - 1) buf mem
      = Ok (val', p', mem')
    ∧ length mem' = length mem
    ∧ buf - 1 <= p' <= e - 1
    ∧ c_string mem' (p' + 1) = Ok s'
    ∧ Z.of_nat (String.length s') = e - 1 - p'
    ∧ pretty_N_go (Z.to_N val) "" = pre +:+ s'
    ∧ (pre = EmptyString ∨ p' = buf - 1).
Proof.
  intros Hval Hbuf He Hlen Hs.
  destruct (decimal_loop_spec (Z.to_nat (e - 1 - buf + 1)) val (e - 1) buf
              mem EmptyString)
    as (val' & p' & mem' & s' & Hrun & Hp' & Hlen' & _ & Hs' & Hsl & Hgo & _);
    try lia.
  { replace (e - 1 + 1) with e by lia. done. }
  destruct (decimal_loop_exit _ val (e - 1) buf mem val' p' mem' ltac:(lia) Hrun)
    as [Hnn Hexit].
  destruct (pretty_N_go_suffix (Z.to_N val') s') as [pre Hpre].
  exists val', p', mem', s', pre. rewrite Hrun.
  split_and!; [done|done|lia|lia|done|change (Z.of_nat (String.length "")) with 0 in Hsl; lia| |].
  - rewrite <- Hgo. done.
  - destruct Hexit as [->|Hstop]; [left|right; lia].
    rewrite pretty_N_go_0 in Hpre.
    apply (f_equal String.length) in Hpre.
    rewrite append_length in Hpre.
    destruct pre; [done|simpl in Hpre; lia].
Qed.



(** X2.  [simple_ulltoa] with any capacity of at least one byte, on any
    unsigned value: what it returns is an end piece of the decimal text
    of the value.  For a value other than zero it is the whole text when
    it fits and otherwise its last [buf_len - 1] digits.  For zero it is
    ["0"] only from three bytes on: with one or two bytes the text is
    empty, although with two the digit and its terminator would fit. *)
Theorem simple_ulltoa_keeps_low_digits (val : Z) (mem : memory) (buf buf_len : Z) :
  0 <= buf → 1 <= buf_len → buf + buf_len <= Z.of_nat (length mem) →
  0 <= val →
  ∃ start mem' text pre,
    simple_ulltoa val mem buf buf_len = Ok (start, mem')
    ∧ c_string mem' start = Ok text
    ∧ pretty val = pre +:+ text
    ∧ (val ≠ 0 →
       Z.of_nat (String.length text)
       = Z.min (Z.of_nat (String.length (pretty val))) (buf_len - 1))
    ∧ (val = 0 → text = if 3 <=? buf_len then "0" else "").
Proof.
  intros Hbuf Hlen Hfit Hval. unfold simple_ulltoa.
  set (e := buf + buf_len - 1).
  rewrite store_Ok by lia. simpl.
  set (mem0 := <[Z.to_nat e := Some NUL]> mem).
  assert (length mem0 = length mem) as Hlen0 by apply length_insert.
  assert (c_string mem0 e = Ok EmptyString) as Hs0
    by (apply c_string_insert_NUL; lia).
  destruct (Z.eq_dec val 0) as [->|Hnz].
  - simpl (0 =? 0). cbv iota. simpl andb.
    destruct (buf <? e - 1) eqn:Hroom.
    + apply Z.ltb_lt in Hroom. rewrite store_Ok by lia. simpl.
      eexists _, _, "0", EmptyString. split_and!; [done| |done|done|].
      * replace (e - 1 - 1 + 1) with (e - 1) by lia.
        apply c_string_insert_here; [lia|discriminate|].
        replace (e - 1 + 1) with e by lia. done.
      * intros _. rewrite (proj2 (Z.leb_le 3 buf_len)) by (unfold e in Hroom; lia).
        done.
    + apply Z.ltb_ge in Hroom. rewrite decimal_loop_skip by lia. simpl.
      eexists _, _, EmptyString, "0". split_and!; [done| |done|done|].
      * replace (e - 1 + 1) with e by lia. done.
      * intros _. rewrite (proj2 (Z.leb_gt 3 buf_len)) by (unfold e in Hroom; lia).
        done.
  - replace (val =? 0) with false by lia. simpl andb. cbv iota.
    destruct (decimal_loop_text val e buf mem0)
      as (val' & p' & mem' & s' & pre & Hrun & Hlen' & Hp' & Hs' & Hsl & Hdig
          & Hcase); try lia; try done.
    rewrite Hrun. simpl.
    eexists _, _, s', pre. split_and!; try done.
    + rewrite pretty_pos by lia. done.
    + intros _. rewrite pretty_pos by lia. rewrite Hdig, append_length.
      destruct Hcase as [->|Hstop]; simpl; lia.
Qed.

Lemma simple_ulltoa_keeps_low_digits_witness :
  ∃ start mem' text pre,
    simple_ulltoa 18446744073709551615 fenced_memory 1 3 = Ok (start, mem')
    ∧ c_string mem' start = Ok text
    ∧ pretty 18446744073709551615 = pre +:+ text
    ∧ (18446744073709551615 ≠ 0 →
       Z.of_nat (String.length text)
       = Z.min (Z.of_nat (String.length (pretty 18446744073709551615))) (3 - 1))
    ∧ (18446744073709551615 = 0 → text = if 3 <=? 3 then "0" else "").
Proof.
  apply (simple_ulltoa_keeps_low_digits 18446744073709551615 fenced_memory 1 3).
  - lia.
  - lia.
  - simpl. lia.
  - lia.
Defined.

(** ** The value zero *)

(** X3.  Zero is written only where a test [p > buf] lets it: the decimal
    converters return ["0"] from three bytes of capacity on and the empty
    string for one or two bytes, although two bytes would hold the digit
    and its terminator; the pointer converter returns ["0x0"] from four
    bytes on, ["00"] for three, ["0"] for two and the empty string for
    one. *)
Theorem zero_needs_a_spare_byte (mem : memory) (buf buf_len : Z) :
  0 <= buf → 1 <= buf_len → buf + buf_len <= Z.of_nat (length mem) →
  returned_text (simple_itoa 0 mem buf buf_len)
    = Ok (if 3 <=? buf_len then "0" else "")
  ∧ returned_text (simple_ulltoa 0 mem buf buf_len)
    = Ok (if 3 <=? buf_len then "0" else "")
  ∧ returned_text (simple_ptr_to_hex 0 mem buf buf_len)
    = Ok (if 4 <=? buf_len then "0x0"
          else if buf_len =? 3 then "00"
          else if buf_len =? 2 then "0" else "").
Proof.
  intros Hbuf Hlen Hfit.
  pose proof (built_init mem (buf + buf_len - 1) ltac:(lia)) as Hb0.
  unfold simple_itoa, simple_ulltoa, simple_ptr_to_hex.
  set (e := buf + buf_len - 1) in *.
  rewrite store_Ok by lia. simpl.
  set (mem0 := <[Z.to_nat e := Some NUL]> mem) in *.
  destruct (built_guarded_store _ _ _ _ _ "0"%char (buf <? e - 1) Hb0)
    as (p1 & mem1 & s1 & Hst1 & Hb1 & Hp1 & Hs1); [lia|discriminate|].
  split_and!.
  - destruct (buf <? e - 1) eqn:Hroom.
    + destruct (store mem0 (e - 1) "0") as [m|f]; [|discriminate].
      injection Hst1 as <- <-. simpl. unfold returned_text. simpl.
      destruct Hb1 as (_ & _ & Hs & _). subst s1.
      replace (e - 1 - 1 + 1) with (e - 1 - 1 + 1) by lia. rewrite Hs.
      apply Z.ltb_lt in Hroom. rewrite (proj2 (Z.leb_le 3 buf_len)) by lia. done.
    + rewrite decimal_loop_skip by lia. simpl. unfold returned_text. simpl.
      destruct Hb0 as (_ & _ & Hs & _). rewrite Hs.
      apply Z.ltb_ge in Hroom. rewrite (proj2 (Z.leb_gt 3 buf_len)) by lia. done.
  - destruct (buf <? e - 1) eqn:Hroom.
    + destruct (store mem0 (e - 1) "0") as [m|f]; [|discriminate].
      injection Hst1 as <- <-. simpl. unfold returned_text. simpl.
      destruct Hb1 as (_ & _ & Hs & _). subst s1. rewrite Hs.
      apply Z.ltb_lt in Hroom. rewrite (proj2 (Z.leb_le 3 buf_len)) by lia. done.
    + rewrite decimal_loop_skip by lia. simpl. unfold returned_text. simpl.
      destruct Hb0 as (_ & _ & Hs & _). rewrite Hs.
      apply Z.ltb_ge in Hroom. rewrite (proj2 (Z.leb_gt 3 buf_len)) by lia. done.
  - rewrite Hst1. simpl. rewrite hex_loop_skip by lia. simpl.
    destruct (built_guarded_store _ _ _ _ _ "x"%char (buf <? p1) Hb1)
      as (p2 & mem2 & s2 & -> & Hb2 & Hp2 & Hs2).
    { intros Hc. apply Z.ltb_lt in Hc. lia. }
    { discriminate. }
    simpl.
    destruct (built_guarded_store _ _ _ _ _ "0"%char (buf <=? p2) Hb2)
      as (p3 & mem3 & s3 & -> & Hb3 & Hp3 & Hs3).
    { intros Hc. apply Z.leb_le in Hc. lia. }
    { discriminate. }
    simpl. unfold returned_text. simpl.
    destruct Hb3 as (_ & _ & Hs & _). rewrite Hs. f_equal.
    subst s3 s2 s1 p2 p1.
    unfold e in *. clear.
    repeat match goal with
           | |- context [if ?c then _ else _] =>
               let H := fresh in destruct c eqn:H; simpl in *; try lia
           end; done.
Qed.

Lemma zero_needs_a_spare_byte_witness :
  returned_text (simple_itoa 0 fenced_memory 1 2) = Ok (if 3 <=? 2 then "0" else "")
  ∧ returned_text (simple_ulltoa 0 fenced_memory 1 2)
    = Ok (if 3 <=? 2 then "0" else "")
  ∧ returned_text (simple_ptr_to_hex 0 fenced_memory 1 2)
    = Ok (if 4 <=? 2 then "0x0"
          else if 2 =? 3 then "00"
          else if 2 =? 2 then "0" else "").
Proof.
  apply (zero_needs_a_spare_byte fenced_memory 1 2); simpl; lia.
Defined.

(** ** Pointer text that does not fit *)

(** The hexadecimal loop writes as many nibbles as the value has, or as
    the buffer takes. *)
Lemma built_hex_loop_count orig mem p e buf v0 :
  built orig mem p e EmptyString → 0 < v0 → 0 <= buf → buf - 1 <= p →
  ∃ (j : nat) val' mem',
    hex_loop (Z.to_nat (p - buf + 1)) v0 p buf mem = Ok (val', p - Z.of_nat j, mem')
    ∧ built orig mem' (p - Z.of_nat j) e (hex_fixed j v0)
    ∧ Z.of_nat j = Z.min (Z.of_nat (nibbles v0)) (p - buf + 1).
Proof.
  intros (Hlen & Hframe & Hs & He) Hv0 Hbuf Hp.
  pose proof (c_string_length _ _ _ Hs) as [_ Hin].
  destruct (hex_loop_spec (Z.to_nat (p - buf + 1)) v0 0 p buf mem EmptyString)
    as (j & p' & mem' & Hrun & Hp' & Hj & Hlen' & Hframe' & Hs' & Hexit & Hlast);
    try lia; try done.
  simpl in Hrun. rewrite Z.shiftr_0_r in Hrun.
  rewrite append_empty_r in Hs'.
  assert (p' = p - Z.of_nat j) as -> by lia.
  exists j, (Z.shiftr v0 (4 * Z.of_nat j)), mem'. split; [done|]. split.
  - unfold built. split_and!; try congruence.
    + intros i Hi. rewrite Hframe' by lia. apply Hframe. lia.
    + rewrite hex_fixed_length. simpl in He. lia.
  - pose proof (nibbles_log v0 Hv0) as [Hlow Hup].
    assert (Z.of_nat j <= Z.of_nat (nibbles v0)) as Hle.
    { destruct (decide (j = 0%nat)) as [->|Hj0]; [lia|].
      specialize (Hlast ltac:(lia)).
      destruct (Z_le_gt_dec (Z.of_nat j) (Z.of_nat (nibbles v0))); [done|].
      assert (Z.shiftr v0 (4 * (Z.of_nat j - 1)) = 0)
        by (apply Z.shiftr_eq_0; lia).
      lia. }
    destruct Hexit as [Hzero|Hstop]; [|lia].
    apply Z.shiftr_eq_0_iff in Hzero as [?|[_ Hlog]]; lia.
Qed.

(** X4.  [simple_ptr_to_hex] on a non-null pointer of [n] hexadecimal
    digits, with any capacity of at least one byte: from [n + 3] bytes on
    the text is ["0x"] and the digits; with exactly [n + 2] bytes the
    ["x"] is left out and the text is ["0"] and the digits; with less,
    the text is the last [buf_len - 1] digits without any prefix. *)
Theorem simple_ptr_to_hex_by_capacity (val : Z) (mem : memory) (buf buf_len : Z) :
  0 <= buf → 1 <= buf_len → buf + buf_len <= Z.of_nat (length mem) →
  0 < val →
  returned_text (simple_ptr_to_hex val mem buf buf_len)
  = Ok (if Z.of_nat (nibbles val) + 3 <=? buf_len then "0x" +:+ hex_of val
        else if Z.of_nat (nibbles val) + 2 =? buf_len then "0" +:+ hex_of val
        else hex_fixed (Z.to_nat (buf_len - 1)) val).
Proof.
  intros Hbuf Hlen Hfit Hval. unfold simple_ptr_to_hex.
  set (e := buf + buf_len - 1).
  rewrite store_Ok by lia. simpl.
  pose proof (built_init mem e ltac:(lia)) as Hb0.
  set (mem0 := <[Z.to_nat e := Some NUL]> mem) in *.
  replace (val =? 0) with false by lia. simpl.
  destruct (built_hex_loop_count _ _ _ _ buf val Hb0)
    as (j & val' & mem1 & -> & Hb1 & Hj); try lia.
  simpl.
  destruct (built_guarded_store _ _ _ _ _ "x"%char
              (buf <? e - 1 - Z.of_nat j) Hb1)
    as (p2 & mem2 & s2 & -> & Hb2 & Hp2 & Hs2).
  { intros Hc. apply Z.ltb_lt in Hc. lia. }
  { discriminate. }
  simpl.
  destruct (built_guarded_store _ _ _ _ _ "0"%char (buf <=? p2) Hb2)
    as (p3 & mem3 & s3 & -> & Hb3 & Hp3 & Hs3).
  { intros Hc. apply Z.leb_le in Hc. lia. }
  { discriminate. }
  simpl. unfold returned_text. simpl.
  destruct Hb3 as (_ & _ & Hs & _). rewrite Hs. f_equal.
  subst s3 s2 p2. unfold hex_of. replace (val =? 0) with false by lia.
  destruct (Z.of_nat (nibbles val) + 3 <=? buf_len) eqn:Hfull.
  - apply Z.leb_le in Hfull.
    assert (j = nibbles val) as -> by lia.
    rewrite (proj2 (Z.ltb_lt buf _)) by lia.
    rewrite (proj2 (Z.leb_le buf _)) by lia. done.
  - apply Z.leb_gt in Hfull.
    destruct (Z.of_nat (nibbles val) + 2 =? buf_len) eqn:Hnear.
    + apply Z.eqb_eq in Hnear.
      assert (j = nibbles val) as -> by lia.
      rewrite (proj2 (Z.ltb_ge buf _)) by lia.
      rewrite (proj2 (Z.leb_le buf _)) by lia. done.
    + apply Z.eqb_neq in Hnear.
      assert (j = Z.to_nat (buf_len - 1)) as -> by lia.
      rewrite (proj2 (Z.ltb_ge buf _)) by lia.
      rewrite (proj2 (Z.leb_gt buf _)) by lia. done.
Qed.

Lemma simple_ptr_to_hex_by_capacity_witness :
  returned_text (simple_ptr_to_hex 3735928559 (replicate 10 None) 0 10)
  = Ok (if Z.of_nat (nibbles 3735928559) + 3 <=? 10 then "0x" +:+ hex_of 3735928559
        else if Z.of_nat (nibbles 3735928559) + 2 =? 10 then "0" +:+ hex_of 3735928559
        else hex_fixed (Z.to_nat (10 - 1)) 3735928559).
Proof.
  apply (simple_ptr_to_hex_by_capacity 3735928559 (replicate 10 None) 0 10);
    simpl; lia.
Defined.

Example simple_ptr_to_hex_drops_the_x :
  returned_text (simple_ptr_to_hex 3735928559 (replicate 10 None) 0 10)
  = Ok "0deadbeef".
Proof. reflexivity. Qed.

(** * Further properties of the writers and of the composer *)

(** ** The value writers, on any value *)

Lemma write_int32_val_total K fd val :
  ∃ text,
    emits K fd text (write_int32_val K fd val)
    ∧ Z.of_nat (String.length text) <= 11
    ∧ (in_int32 val → text = int32_text val).
Proof.
  destruct (simple_itoa_run val (replicate 12 None) 0 12)
    as (start & mem' & s & Hrun & _ & Hs & Hlow & Hend & Htext);
    [lia|lia|simpl; lia|].
  exists s. split_and!.
  - intros t. unfold write_int32_val, mbind, io_bind, lift.
    rewrite Hrun, Hs. reflexivity.
  - lia.
  - intros Hrange. unfold int32_text. destruct (val =? INT32_MIN) eqn:Hmin.
    + apply Z.eqb_eq in Hmin. subst val.
      destruct simple_itoa_min as (start0 & mem0 & Hrun0 & Hs0).
      rewrite Hrun0 in Hrun. injection Hrun as <- <-. congruence.
    + apply Z.eqb_neq in Hmin. apply Htext; [done|done|lia].
Qed.

Lemma write_uint64_val_total K fd val :
  ∃ text,
    emits K fd text (write_uint64_val K fd val)
    ∧ Z.of_nat (String.length text) <= 20
    ∧ (in_uint64 val → text = uint64_text val).
Proof.
  destruct (simple_ulltoa_run val (replicate 21 None) 0 21)
    as (start & mem' & s & Hrun & _ & Hs & Hlow & Hend & Htext);
    [lia|lia|simpl; lia|].
  exists s. split_and!.
  - intros t. unfold write_uint64_val, mbind, io_bind, lift.
    rewrite Hrun, Hs. reflexivity.
  - lia.
  - intros Hrange. apply Htext; [done|lia].
Qed.

Lemma write_ptr_val_total K ptr_bytes fd val :
  0 <= ptr_bytes →
  ∃ text,
    emits K fd text (write_ptr_val K ptr_bytes fd val)
    ∧ Z.of_nat (String.length text) <= ptr_bytes * 2 + 2
    ∧ (1 <= ptr_bytes → pointer_sized ptr_bytes val → text = ptr_text val).
Proof.
  intros Hpb.
  destruct (simple_ptr_to_hex_run val
              (replicate (Z.to_nat (ptr_bytes * 2 + 3)) None) 0 (ptr_bytes * 2 + 3))
    as (start & mem' & s & Hrun & _ & Hs & Hlow & Hend & Htext);
    [lia|lia|rewrite length_replicate; lia|].
  exists s. split_and!.
  - intros t. unfold write_ptr_val, ptr_buf_size, mbind, io_bind, lift.
    rewrite Hrun, Hs. reflexivity.
  - lia.
  - intros Hpb1 Hval. unfold pointer_sized in Hval.
    apply (Htext (ptr_bytes * 2)); try lia.
    replace (4 * (ptr_bytes * 2)) with (8 * ptr_bytes) by lia. done.
Qed.

(** X5.  Each value writer, on any value and from any state of the
    destination, converts into its scratch buffer without a fault and
    then calls [write] exactly once, on the text from its first character
    to its terminator; it returns what [write] returned, as an [int],
    and tries nothing again after a short or failed write.  The request
    is never longer than the scratch buffer allows (11, 20 and
    [2 * ptr_bytes + 2] bytes).  It is the full decimal text of the
    value for every [int32_t] other than [INT32_MIN], which [simple_itoa]
    does not handle, and for every [uint64_t], and it is ["0x"] and the
    hexadecimal digits for every pointer. *)
Theorem value_writers_write_once
    (K : kernel) (ptr_bytes fd int_val ull_val ptr_val : Z) (t : trace) :
  0 <= ptr_bytes →
  (∃ text,
     write_int32_val K fd int_val t
       = Ok (to_int32 (K t fd text), t ++ [EvWrite fd text (K t fd text)])
     ∧ Z.of_nat (String.length text) <= 11
     ∧ (in_int32 int_val → int_val ≠ INT32_MIN → text = pretty int_val))
  ∧ (∃ text,
       write_uint64_val K fd ull_val t
         = Ok (to_int32 (K t fd text), t ++ [EvWrite fd text (K t fd text)])
       ∧ Z.of_nat (String.length text) <= 20
       ∧ (in_uint64 ull_val → text = pretty ull_val))
  ∧ (∃ text,
       write_ptr_val K ptr_bytes fd ptr_val t
         = Ok (to_int32 (K t fd text), t ++ [EvWrite fd text (K t fd text)])
       ∧ Z.of_nat (String.length text) <= ptr_bytes * 2 + 2
       ∧ (1 <= ptr_bytes → pointer_sized ptr_bytes ptr_val →
          text = "0x" +:+ hex_of ptr_val)).
Proof.
  intros Hpb. split_and!.
  - destruct (write_int32_val_total K fd int_val) as (text & Hw & Hlen & Htext).
    exists text. split_and!; [apply Hw|done|].
    intros Hrange Hmin. rewrite (Htext Hrange). unfold int32_text.
    rewrite (proj2 (Z.eqb_neq _ _)) by done. done.
  - destruct (write_uint64_val_total K fd ull_val) as (text & Hw & Hlen & Htext).
    exists text. split_and!; [apply Hw|done|done].
  - destruct (write_ptr_val_total K ptr_bytes fd ptr_val Hpb)
      as (text & Hw & Hlen & Htext).
    exists text. split_and!; [apply Hw|done|done].
Qed.

(** A negative [int], the largest [unsigned long long] and a 32-bit
    address on a machine with 8-byte pointers, each sent to a kernel that
    takes every byte. *)
Lemma value_writers_write_once_witness :
  (∃ text,
     write_int32_val full_kernel 3 (-17) []
       = Ok (to_int32 (full_kernel [] 3 text),
             [] ++ [EvWrite 3 text (full_kernel [] 3 text)])
     ∧ Z.of_nat (String.length text) <= 11
     ∧ text = pretty (-17))
  ∧ (∃ text,
       write_uint64_val full_kernel 3 18446744073709551615 []
         = Ok (to_int32 (full_kernel [] 3 text),
               [] ++ [EvWrite 3 text (full_kernel [] 3 text)])
       ∧ Z.of_nat (String.length text) <= 20
       ∧ text = pretty 18446744073709551615)
  ∧ (∃ text,
       write_ptr_val full_kernel 8 3 3735928559 []
         = Ok (to_int32 (full_kernel [] 3 text),
               [] ++ [EvWrite 3 text (full_kernel [] 3 text)])
       ∧ Z.of_nat (String.length text) <= 8 * 2 + 2
       ∧ text = "0x" +:+ hex_of 3735928559).
Proof.
  destruct (value_writers_write_once full_kernel 8 3 (-17)
              18446744073709551615 3735928559 [])
    as ((t1 & R1 & L1 & T1) & (t2 & R2 & L2 & T2) & (t3 & R3 & L3 & T3));
    [lia|].
  split_and!.
  - exists t1. split_and!; [exact R1|exact L1|].
    apply T1; unfold in_int32, INT32_MIN, INT32_MAX; lia.
  - exists t2. split_and!; [exact R2|exact L2|].
    apply T2. unfold in_uint64, UINT64_MAX. lia.
  - exists t3. split_and!; [exact R3|exact L3|].
    apply T3; [lia|]. unfold pointer_sized. simpl. lia.
Defined.

(** ** The composer never faults *)

Lemma frames_loop_total K ptr_bytes fd frames frame_count :
  0 <= ptr_bytes → frame_count <= Z.of_nat (length frames) →
  ∀ fuel i total_written t,
    0 <= i → frame_count - i <= Z.of_nat fuel →
    ∃ total t',
      frames_loop K ptr_bytes fuel fd frames frame_count i total_written t
      = Ok (total, t').
Proof.
  intros Hpb Hlen.
  induction fuel as [|fuel IH]; intros i total_written t Hi Hfuel; simpl.
  - replace (i <? frame_count) with false by lia. eexists _, _. reflexivity.
  - destruct (i <? frame_count) eqn:Hlt; [|eexists _, _; reflexivity].
    apply Z.ltb_lt in Hlt.
    destruct (lookup_lt_is_Some_2 frames (Z.to_nat i)) as [frame Hf]; [lia|].
    unfold mbind at 1, io_bind at 1. rewrite (read_frame_Some _ _ frame) by done.
    destruct (write_ptr_val_total K ptr_bytes fd frame Hpb) as (text & Hw & _).
    unfold mbind at 1, io_bind at 1.
    destruct (negb (frame =? 0)).
    + erewrite bind_emits by apply write_literal_emits. cbv beta zeta.
      erewrite bind_emits by exact Hw. cbv beta zeta.
      erewrite bind_emits by apply write_literal_emits. cbv beta zeta.
      unfold mret at 1, io_ret at 1.
      destruct (4000 <? _); [eexists _, _; reflexivity|].
      apply IH; lia.
    + erewrite bind_emits by apply write_literal_emits. cbv beta zeta.
      unfold mret at 1, io_ret at 1.
      destruct (4000 <? _); [eexists _, _; reflexivity|].
      apply IH; lia.
Qed.

(** X6.  For every kernel and all argument values, a call whose frame
    array holds at least [frame_count] entries returns normally: no
    store or load leaves a scratch buffer, no uninitialised byte is sent,
    no frame is read outside the array and every loop ends.  When the
    kernel answers each [write] with -1 or with a count of at most the
    bytes requested, and a pointer has at most 16 bytes, the result is
    -1 or positive, never zero and never another negative number. *)
Theorem composer_never_faults
    (K : kernel) (ptr_bytes fd signal_num timestamp thread_id : Z)
    (frames : list Z) (frame_count : Z) :
  0 <= ptr_bytes → frame_count <= Z.of_nat (length frames) →
  ∃ ret t,
    write_minimal_crash_info_c K ptr_bytes fd signal_num timestamp thread_id
      frames frame_count [] = Ok (ret, t)
    ∧ (conforming K → ptr_bytes <= 16 → ret = -1 ∨ 0 < ret).
Proof.
  intros Hpb Hlen. unfold write_minimal_crash_info_c.
  destruct (fd <? 0); [eexists _, _; split; [reflexivity|left; done]|].
  destruct (write_int32_val_total K fd signal_num) as (s1 & H1 & _).
  destruct (write_int32_val_total K fd (to_int32 timestamp)) as (s2 & H2 & _).
  destruct (write_uint64_val_total K fd thread_id) as (s3 & H3 & _).
  destruct (write_int32_val_total K fd (to_int32 frame_count)) as (s4 & H4 & _).
  erewrite bind_emits by apply write_literal_emits. cbv beta zeta.
  erewrite bind_emits by exact H1. cbv beta zeta.
  erewrite bind_emits by apply write_literal_emits. cbv beta zeta.
  erewrite bind_emits by exact H2. cbv beta zeta.
  erewrite bind_emits by apply write_literal_emits. cbv beta zeta.
  erewrite bind_emits by exact H3. cbv beta zeta.
  erewrite bind_emits by apply write_literal_emits. cbv beta zeta.
  erewrite bind_emits by exact H4. cbv beta zeta.
  erewrite bind_emits by apply write_literal_emits. cbv beta zeta.
  unfold mbind at 1, io_bind at 1.
  match goal with
  | |- context [frames_loop K ptr_bytes ?fuel fd frames frame_count 0 ?total ?t] =>
      destruct (frames_loop_total K ptr_bytes fd frames frame_count Hpb Hlen
                  fuel 0 total t) as (total' & t' & ->); [lia|lia|]
  end.
  erewrite bind_emits by apply write_literal_emits. cbv beta zeta.
  eexists _, _. split; [reflexivity|]. intros _ _.
  destruct (0 <? _) eqn:Hpos; [right; apply Z.ltb_lt in Hpos; done|left; done].
Qed.

(** A segmentation fault with three frames, the second one null, on a
    machine with 8-byte pointers and a kernel that takes every byte. *)
Lemma composer_never_faults_witness :
  ∃ ret t,
    write_minimal_crash_info_c full_kernel 8 3 11 1700000000 123456789012
      [3735928559; 0; 140737488355327] 3 [] = Ok (ret, t)
    ∧ (ret = -1 ∨ 0 < ret).
Proof.
  destruct (composer_never_faults full_kernel 8 3 11 1700000000 123456789012
              [3735928559; 0; 140737488355327] 3)
    as (ret & t & Hrun & Hsign); [lia|simpl; lia|].
  exists ret, t. split; [exact Hrun|]. apply Hsign; [|lia].
  intros t0 fd data. unfold full_kernel. lia.
Defined.

(** ** Which frames the composer looks at *)

Lemma io_bind_ext {A B} (m : io A) (k1 k2 : A → io B) t :
  (∀ a t', k1 a t' = k2 a t') → (m ≫= k1) t = (m ≫= k2) t.
Proof.
  intros Hk. unfold mbind, io_bind. destruct (m t) as [[a t']|f]; [apply Hk|done].
Qed.

Lemma frames_loop_prefix K ptr_bytes fd frames frames' frame_count :
  take (Z.to_nat frame_count) frames = take (Z.to_nat frame_count) frames' →
  ∀ fuel i total_written t,
    frames_loop K ptr_bytes fuel fd frames frame_count i total_written t
    = frames_loop K ptr_bytes fuel fd frames' frame_count i total_written t.
Proof.
  intros Htake.
  induction fuel as [|fuel IH]; intros i total_written t; simpl; [done|].
  destruct (i <? frame_count) eqn:Hlt; [|done]. apply Z.ltb_lt in Hlt.
  assert (read_frame frames i = read_frame frames' i) as ->.
  { unfold read_frame. destruct (0 <=? i) eqn:Hi; [|done].
    apply Z.leb_le in Hi.
    rewrite <- (lookup_take_lt frames (Z.to_nat frame_count)) by lia.
    rewrite <- (lookup_take_lt frames' (Z.to_nat frame_count)) by lia.
    rewrite Htake. done. }
  apply io_bind_ext. intros frame t1.
  apply io_bind_ext. intros total t2.
  destruct (4000 <? total); [done|]. apply IH.
Qed.

(** X7.  The call depends on the frame array only through its first
    [frame_count] entries: two arrays that agree there give the same
    trace and the same result (or the same fault), for every kernel and
    from every state.  In particular nothing at or beyond index
    [frame_count] is read. *)
Theorem composer_reads_only_counted_frames
    (K : kernel) (ptr_bytes fd signal_num timestamp thread_id : Z)
    (frames frames' : list Z) (frame_count : Z) (t : trace) :
  take (Z.to_nat frame_count) frames = take (Z.to_nat frame_count) frames' →
  write_minimal_crash_info_c K ptr_bytes fd signal_num timestamp thread_id
    frames frame_count t
  = write_minimal_crash_info_c K ptr_bytes fd signal_num timestamp thread_id
      frames' frame_count t.
Proof.
  intros Htake. unfold write_minimal_crash_info_c.
  destruct (fd <? 0); [done|]. cbv zeta.
  do 9 (apply io_bind_ext; intros ? ?).
  unfold mbind at 1 3, io_bind at 1 3.
  rewrite (frames_loop_prefix K ptr_bytes fd frames frames' frame_count Htake).
  done.
Qed.

Lemma composer_reads_only_counted_frames_witness :
  write_minimal_crash_info_c full_kernel 8 3 11 1700000000 123456789012
    [3735928559; 0; 77] 2 []
  = write_minimal_crash_info_c full_kernel 8 3 11 1700000000 123456789012
      [3735928559; 0] 2 [].
Proof.
  apply (composer_reads_only_counted_frames full_kernel 8 3 11 1700000000
           123456789012 [3735928559; 0; 77] [3735928559; 0] 2 []).
  reflexivity.
Defined.

(** ** Kernels that may write less than asked *)

Lemma substring_prefix_length (s : string) : ∀ n : nat,
  (n <= String.length s)%nat → String.length (substring 0 n s) = n.
Proof.
  induction s as [|c s IH]; intros [|n] Hn; simpl in *; try done; try lia.
  rewrite IH by lia. done.
Qed.

Lemma delivered_snoc K fd t data :
  conforming K →
  delivered fd (replay K fd t [data])
  = delivered fd t + Z.max 0 (K t fd data).
Proof.
  intros HK. unfold delivered. simpl replay.
  rewrite emitted_app, append_length. simpl emitted. rewrite Z.eqb_refl.
  destruct (HK t fd data) as [Hlow Hhigh].
  simpl andb. destruct (0 <? K t fd data) eqn:Hpos.
  - rewrite append_length, substring_prefix_length by lia. simpl. lia.
  - simpl. lia.
Qed.

(** Below the [int] limit, the tally of a conforming kernel counts the
    bytes delivered. *)
Lemma conforming_replay K fd requests : conforming K → ∀ t,
  tally t = delivered fd t →
  tally t + total_length requests <= INT32_MAX →
  tally (replay K fd t requests) = delivered fd (replay K fd t requests)
  ∧ tally t <= tally (replay K fd t requests) <= tally t + total_length requests.
Proof.
  intros HK.
  induction requests as [|data requests IH]; intros t Ht Hmax.
  - simpl. split; [done|lia].
  - cbn [total_length] in Hmax.
    pose proof (total_length_nonneg requests) as Hrest.
    assert (0 <= tally t) as Hnn by (rewrite Ht; unfold delivered; lia).
    destruct (HK t fd data) as [Hlow Hhigh].
    assert (tally (replay K fd t [data]) = tally t + Z.max 0 (K t fd data))
      as Hstep.
    { simpl. rewrite tally_snoc_write. unfold accumulate, add32.
      rewrite (to_int32_id (K t fd data))
        by (unfold in_int32, INT32_MIN, INT32_MAX in *; lia).
      destruct (0 <? K t fd data) eqn:Hpos; [|lia].
      rewrite to_int32_id
        by (unfold in_int32, INT32_MIN, INT32_MAX in *; lia).
      lia. }
    change (replay K fd t (data :: requests))
      with (replay K fd (replay K fd t [data]) requests).
    destruct (IH (replay K fd t [data])) as [Heq Hbounds].
    + rewrite Hstep, delivered_snoc, Ht by done. done.
    + rewrite Hstep. lia.
    + split; [done|]. cbn [total_length]. lia.
Qed.

(** At every frame boundary the loop passes, the tally is the number of
    bytes delivered and lies within one line of the bound. *)
Lemma conforming_prefix K ptr_bytes fd (header : list string) frames (n : nat) :
  conforming K → 1 <= ptr_bytes <= 16 →
  total_length header <= 4000 →
  Forall (pointer_sized ptr_bytes) (take n frames) →
  (∀ m : nat, (1 <= m < n)%nat →
     tally (replay K fd [] (header ++ frames_requests (take m frames))) <= 4000) →
  ∀ m : nat, (m <= n)%nat →
    let t := replay K fd [] (header ++ frames_requests (take m frames)) in
    tally t = delivered fd t
    ∧ tally t <= 4000 + max_frame_line ptr_bytes
    ∧ ((m < n)%nat → tally t <= 4000).
Proof.
  intros HK Hpb Hheader Hframes Hin.
  assert (12 <= max_frame_line ptr_bytes <= 37) as Hline
    by (unfold max_frame_line; lia).
  induction m as [|m IH]; intros Hm; cbv zeta.
  - change (frames_requests (take 0 frames)) with (@nil string).
    rewrite app_nil_r.
    destruct (conforming_replay K fd header HK []) as [Heq Hbounds];
      [done|change (tally []) with 0; unfold INT32_MAX; lia|].
    change (tally []) with 0 in Hbounds.
    split_and!; [done|lia|intros _; lia].
  - destruct (IH ltac:(lia)) as (Heq & _ & Hbelow). cbv zeta in *.
    specialize (Hbelow ltac:(lia)).
    destruct (frames !! m) as [frame|] eqn:Hf.
    + rewrite (take_S_r _ _ _ Hf), frames_requests_app. simpl frames_requests.
      rewrite app_nil_r, app_assoc, replay_app.
      assert (pointer_sized ptr_bytes frame) as Hptr.
      { rewrite Forall_lookup in Hframes. apply (Hframes m).
        rewrite lookup_take_lt by lia. done. }
      pose proof (frame_line_length ptr_bytes frame ltac:(lia) Hptr) as Hfl.
      destruct (conforming_replay K fd (frame_requests frame) HK _ Heq)
        as [Heq' Hbounds']; [unfold INT32_MAX; lia|].
      split_and!; [done|lia|].
      intros Hlt. specialize (Hin (S m) ltac:(lia)).
      rewrite (take_S_r _ _ _ Hf), frames_requests_app in Hin.
      simpl frames_requests in Hin.
      rewrite app_nil_r, app_assoc, replay_app in Hin. done.
    + apply lookup_ge_None in Hf.
      rewrite (take_ge frames (S m)) by lia.
      rewrite (take_ge frames m) in Heq, Hbelow by lia.
      split_and!; [done|lia|intros _; done].
Qed.

(** X8.  For every kernel that answers each [write] with -1 or with a
    count of at most the bytes requested, and every frame count: the
    result of the call is the number of bytes that reached the
    descriptor when that number is positive, and -1 when nothing reached
    it; and it never exceeds 4000 plus one frame line plus the end
    marker. *)
Theorem composer_returns_bytes_delivered
    (K : kernel) (ptr_bytes fd signal_num timestamp thread_id : Z)
    (frames : list Z) (frame_count : Z) :
  conforming K →
  1 <= ptr_bytes <= 16 → 0 <= fd →
  in_int32 signal_num → in_uint64 thread_id → in_int32 frame_count →
  frame_count <= Z.of_nat (length frames) →
  Forall (pointer_sized ptr_bytes) (take (Z.to_nat frame_count) frames) →
  ∃ ret t,
    write_minimal_crash_info_c K ptr_bytes fd signal_num timestamp thread_id
      frames frame_count [] = Ok (ret, t)
    ∧ ret = (if 0 <? delivered fd t then delivered fd t else -1)
    ∧ ret <= 4000 + max_frame_line ptr_bytes
             + Z.of_nat (String.length end_marker).
Proof.
  intros HK Hpb Hfd Hsig Htid Hcount Hlen Hframes.
  destruct (composer_spec K ptr_bytes fd signal_num timestamp thread_id
              frames frame_count)
    as (n & Hrun & Hn & _ & Hin); try done; try lia.
  cbv zeta in *.
  set (header := header_requests signal_num timestamp thread_id frame_count) in *.
  pose proof (header_length signal_num timestamp thread_id frame_count
                Hsig Htid Hcount) as Hheader. fold header in Hheader.
  assert (12 <= max_frame_line ptr_bytes <= 37) as Hline
    by (unfold max_frame_line; lia).
  assert (Forall (pointer_sized ptr_bytes) (take n frames)) as Hframes_n
    by (apply (Forall_take_le _ _ n (Z.to_nat frame_count)); [lia|done]).
  destruct (conforming_prefix K ptr_bytes fd header frames n HK Hpb ltac:(lia)
              Hframes_n Hin n ltac:(lia)) as (Heq & Hup & _).
  cbv zeta in *.
  unfold report_requests in Hrun. fold header in Hrun.
  rewrite app_assoc, replay_app in Hrun.
  destruct (conforming_replay K fd [end_marker] HK _ Heq) as [Heq' Hbounds'].
  { change (total_length [end_marker]) with 29. unfold INT32_MAX. lia. }
  change (total_length [end_marker]) with 29 in Hbounds'.
  eexists _, _. split; [exact Hrun|].
  assert (∀ t, delivered fd (t ++ [EvFsync fd]) = delivered fd t) as Hfsync.
  { intros t. unfold delivered. rewrite emitted_app. simpl.
    rewrite append_empty_r. done. }
  rewrite Hfsync, <- Heq'.
  change (Z.of_nat (String.length end_marker)) with 29.
  split; [done|]. destruct (0 <? _); lia.
Qed.

Lemma composer_returns_bytes_delivered_witness :
  ∃ ret t,
    write_minimal_crash_info_c dead_kernel 8 3 11 1700000000 123456789012
      [3735928559; 0] 2 [] = Ok (ret, t)
    ∧ ret = (if 0 <? delivered 3 t then delivered 3 t else -1)
    ∧ ret <= 4000 + max_frame_line 8 + Z.of_nat (String.length end_marker).
Proof.
  apply (composer_returns_bytes_delivered dead_kernel 8 3 11 1700000000
           123456789012 [3735928559; 0] 2).
  - intros t fd data. unfold dead_kernel. lia.
  - lia.
  - lia.
  - unfold in_int32, INT32_MIN, INT32_MAX. lia.
  - unfold in_uint64, UINT64_MAX. lia.
  - unfold in_int32, INT32_MIN, INT32_MAX. lia.
  - simpl. lia.
  - change (take (Z.to_nat 2) [3735928559; 0]) with [3735928559; 0].
    repeat (apply Forall_cons_2; [apply pointer_sized_mono; lia|]).
    apply Forall_nil_2.
Defined.

(** ** How many frames a report can hold *)

Lemma frames_length_lower ptr_bytes frames : ∀ m : nat,
  1 <= ptr_bytes → (m <= length frames)%nat →
  Forall (pointer_sized ptr_bytes) (take m frames) →
  6 * Z.of_nat m <= total_length (frames_requests (take m frames)).
Proof.
  induction m as [|m IH]; intros Hpb Hm Hframes; [simpl; lia|].
  destruct (lookup_lt_is_Some_2 frames m) as [frame Hf]; [lia|].
  rewrite (take_S_r _ _ _ Hf) in *. apply Forall_app in Hframes as [Hinit Hlast].
  rewrite Forall_singleton in Hlast.
  rewrite frames_requests_app, total_length_app. simpl frames_requests.
  rewrite app_nil_r.
  pose proof (frame_line_length ptr_bytes frame Hpb Hlast).
  specialize (IH Hpb ltac:(lia) Hinit). lia.
Qed.

Lemma frames_requests_count frames :
  (length (frames_requests frames) <= 3 * length frames)%nat.
Proof.
  induction frames as [|frame frames IH]; simpl; [lia|].
  rewrite length_app. unfold frame_requests. destruct (frame =? 0); simpl; lia.
Qed.

(** X9.  With every write served in full, a report never holds more than
    655 frame lines, however large [frame_count] is: every line has at
    least six bytes and the header at least 71, so the total passes 4000
    at the latest with the 655th frame.  The call therefore issues at
    most 1975 writes. *)
Theorem full_report_holds_at_most_655_frames
    (ptr_bytes fd signal_num timestamp thread_id : Z)
    (frames : list Z) (frame_count : Z) :
  1 <= ptr_bytes <= 16 → 0 <= fd →
  in_int32 signal_num → in_uint64 thread_id → in_int32 frame_count →
  frame_count <= Z.of_nat (length frames) →
  Forall (pointer_sized ptr_bytes) (take (Z.to_nat frame_count) frames) →
  ∃ (n : nat) (ret : Z) (t : trace),
    write_minimal_crash_info_c full_kernel ptr_bytes fd signal_num timestamp
        thread_id frames frame_count []
      = Ok (ret, t ++ [EvFsync fd])
    ∧ attempts t
      = report_requests signal_num timestamp thread_id frame_count frames n
    ∧ (n <= 655)%nat
    ∧ Z.of_nat n <= Z.max 0 frame_count
    ∧ (length (attempts t) <= 1975)%nat.
Proof.
  intros Hpb Hfd Hsig Htid Hcount Hlen Hframes.
  destruct (composer_spec full_kernel ptr_bytes fd signal_num timestamp thread_id
              frames frame_count)
    as (n & Hrun & Hn & _ & Hin); try done; try lia.
  cbv zeta in *.
  set (header := header_requests signal_num timestamp thread_id frame_count) in *.
  pose proof (header_length signal_num timestamp thread_id frame_count
                Hsig Htid Hcount) as Hheader. fold header in Hheader.
  assert (Forall (pointer_sized ptr_bytes) (take n frames)) as Hframes_n
    by (apply (Forall_take_le _ _ n (Z.to_nat frame_count)); [lia|done]).
  pose proof (prefix_bounds ptr_bytes fd header frames n Hpb ltac:(lia)
                Hframes_n Hin) as Hbounds.
  assert (n <= 655)%nat as Hmax.
  { destruct n as [|m]; [lia|].
    destruct (Hbounds m ltac:(lia)) as [_ Hbelow].
    specialize (Hbelow ltac:(lia)). rewrite total_length_app in Hbelow.
    pose proof (frames_length_lower ptr_bytes frames m ltac:(lia) ltac:(lia)
                  (Forall_take_le _ _ m (S m) ltac:(lia) Hframes_n)).
    lia. }
  eexists n, _, _. split; [exact Hrun|].
  rewrite attempts_replay. split_and!; [done|done|done|].
  simpl. unfold report_requests. rewrite !length_app. simpl.
  pose proof (frames_requests_count (take n frames)) as Hcnt.
  rewrite length_take in Hcnt. lia.
Qed.

Lemma full_report_holds_at_most_655_frames_witness :
  ∃ (n : nat) (ret : Z) (t : trace),
    write_minimal_crash_info_c full_kernel 8 3 11 1700000000 123456789012
        (replicate 1000 3735928559) 1000 []
      = Ok (ret, t ++ [EvFsync 3])
    ∧ attempts t
      = report_requests 11 1700000000 123456789012 1000
          (replicate 1000 3735928559) n
    ∧ (n <= 655)%nat
    ∧ Z.of_nat n <= Z.max 0 1000
    ∧ (length (attempts t) <= 1975)%nat.
Proof.
  apply (full_report_holds_at_most_655_frames 8 3 11 1700000000 123456789012
           (replicate 1000 3735928559) 1000).
  - lia.
  - lia.
  - unfold in_int32, INT32_MIN, INT32_MAX. lia.
  - unfold in_uint64, UINT64_MAX. lia.
  - unfold in_int32, INT32_MIN, INT32_MAX. lia.
  - rewrite length_replicate. lia.
  - apply Forall_take, Forall_replicate, pointer_sized_mono; lia.
Defined.

(** ** The second signed converter, with any capacity *)

(** X10.  [minimal_itoa_for_signals], on any value and with any capacity,
    zero and negative ones included, never stores outside the
    [buf_size] bytes of its buffer.  With less than two bytes, or less
    than three for a negative value, it returns the buffer untouched and
    unterminated; otherwise it leaves at the start of the buffer a
    non-empty string whose terminator lies inside the buffer and is what
    the result points at. *)
Theorem minimal_itoa_confined (val : Z) (mem : memory) (buf buf_size : Z) :
  0 <= buf → buf + Z.max 0 buf_size <= Z.of_nat (length mem) →
  ∃ p mem',
    minimal_itoa_for_signals val mem buf buf_size = Ok (p, mem')
    ∧ confined mem mem' buf buf_size
    ∧ (if (buf_size <? 2) || ((val <? 0) && (buf_size <? 3))
       then p = buf ∧ mem' = mem
       else ∃ text,
              c_string mem' buf = Ok text
              ∧ text ≠ EmptyString
              ∧ p = buf + Z.of_nat (String.length text)
              ∧ p < buf + buf_size).
Proof.
  intros Hbuf Hfit.
  destruct (minimal_itoa_run val mem buf buf_size Hbuf Hfit)
    as (p & mem' & Hrun & Hconf & Hcase).
  exists p, mem'. split_and!; [exact Hrun|exact Hconf|].
  destruct ((buf_size <? 2) || ((val <? 0) && (buf_size <? 3)));
    [exact Hcase|].
  destruct Hcase as (text & Hs & Hne & Hp & Hin).
  exists text. split_and!; [exact Hs|exact Hne|exact Hp|exact Hin].
Qed.

Lemma minimal_itoa_confined_witness :
  ∃ p mem',
    minimal_itoa_for_signals (-12345) fenced_memory 1 3 = Ok (p, mem')
    ∧ confined fenced_memory mem' 1 3
    ∧ (if (3 <? 2) || ((-12345 <? 0) && (3 <? 3))
       then p = 1 ∧ mem' = fenced_memory
       else ∃ text,
              c_string mem' 1 = Ok text
              ∧ text ≠ EmptyString
              ∧ p = 1 + Z.of_nat (String.length text)
              ∧ p < 1 + 3).
Proof.
  apply (minimal_itoa_confined (-12345) fenced_memory 1 3); simpl; lia.
Defined.

Example minimal_itoa_truncates :
  ('(p, mem) ← minimal_itoa_for_signals (-12345) fenced_memory 1 3;
   text ← c_string mem 1; Ok (p, text, mem))
  = Ok (3, "-5", [Some "A"; Some "-"; Some "5"; Some NUL; Some "B"]%char).
Proof. reflexivity. Qed.

Example minimal_itoa_int32_min :
  ('(p, mem) ← minimal_itoa_for_signals INT32_MIN (replicate 12 None) 0 12;
   c_string mem 0)
  = Ok "-0".
Proof. reflexivity. Qed.

(** ** Reports that stay under the bound *)

Lemma frames_length_mono frames (n m : nat) :
  (n <= m)%nat →
  total_length (frames_requests (take n frames))
  <= total_length (frames_requests (take m frames)).
Proof.
  intros Hnm. replace m with (n + (m - n))%nat by lia.
  rewrite <- take_take_drop, frames_requests_app, total_length_app.
  pose proof (total_length_nonneg
                (frames_requests (take (m - n) (drop n frames)))). lia.
Qed.

(** X11.  With every write served in full, if the header and all frames
    but the last stay within 4000 bytes, the report is complete: every
    one of the [frame_count] frames has its line, in order, between the
    header and the end marker, and the result is the length of the
    report. *)
Theorem small_report_is_complete
    (ptr_bytes fd signal_num timestamp thread_id : Z)
    (frames : list Z) (frame_count : Z) :
  1 <= ptr_bytes <= 16 → 0 <= fd →
  in_int32 signal_num → in_uint64 thread_id → in_int32 frame_count →
  frame_count <= Z.of_nat (length frames) →
  Forall (pointer_sized ptr_bytes) (take (Z.to_nat frame_count) frames) →
  total_length
    (header_requests signal_num timestamp thread_id frame_count
     ++ frames_requests (take (Z.to_nat frame_count - 1) frames)) <= 4000 →
  ∃ t,
    write_minimal_crash_info_c full_kernel ptr_bytes fd signal_num timestamp
        thread_id frames frame_count []
      = Ok (Z.of_nat (String.length (emitted fd t)), t)
    ∧ emitted fd t
      = text_of (header_requests signal_num timestamp thread_id frame_count)
        +:+ text_of (frames_requests (take (Z.to_nat frame_count) frames))
        +:+ end_marker.
Proof.
  intros Hpb Hfd Hsig Htid Hcount Hlen Hframes Hsmall.
  destruct (composer_spec full_kernel ptr_bytes fd signal_num timestamp thread_id
              frames frame_count)
    as (n & Hrun & Hn & Hout & _); try done; try lia.
  cbv zeta in *.
  set (header := header_requests signal_num timestamp thread_id frame_count) in *.
  pose proof (header_length signal_num timestamp thread_id frame_count
                Hsig Htid Hcount) as Hheader. fold header in Hheader.
  assert (12 <= max_frame_line ptr_bytes <= 37) as Hline
    by (unfold max_frame_line; lia).
  rewrite total_length_app in Hsmall.
  assert (n = Z.to_nat frame_count) as ->.
  { destruct (decide (Z.of_nat n < frame_count)) as [Hlt|]; [|lia].
    specialize (Hout Hlt).
    pose proof (frames_length_mono frames n (Z.to_nat frame_count - 1)
                  ltac:(lia)) as Hmono.
    rewrite tally_replay_full in Hout;
      change (tally []) with 0 in *; rewrite ?total_length_app in *;
      unfold INT32_MAX; lia. }
  assert (total_length (frames_requests (take (Z.to_nat frame_count) frames))
          <= total_length
               (frames_requests (take (Z.to_nat frame_count - 1) frames))
             + max_frame_line ptr_bytes) as Hlast.
  { destruct (Z.to_nat frame_count) as [|m] eqn:Hm; [simpl; lia|].
    replace (S m - 1)%nat with m by lia.
    apply (frames_length_step ptr_bytes frames (S m) m); [lia|done|lia]. }
  assert (total_length
            (report_requests signal_num timestamp thread_id frame_count frames
               (Z.to_nat frame_count))
          = total_length header
            + total_length (frames_requests (take (Z.to_nat frame_count) frames))
            + 29) as Htotal.
  { unfold report_requests. fold header. rewrite !total_length_app. simpl. lia. }
  pose proof (total_length_nonneg
                (frames_requests (take (Z.to_nat frame_count) frames))).
  rewrite tally_replay_full in Hrun
    by (change (tally []) with 0; unfold INT32_MAX; lia).
  change (tally []) with 0 in Hrun. rewrite Htotal in Hrun.
  rewrite (proj2 (Z.ltb_lt 0 _)) in Hrun by lia.
  assert (emitted fd
            (replay full_kernel fd []
               (report_requests signal_num timestamp thread_id frame_count frames
                  (Z.to_nat frame_count)) ++ [EvFsync fd])
          = text_of header
            +:+ text_of (frames_requests (take (Z.to_nat frame_count) frames))
            +:+ end_marker) as Hemitted.
  { rewrite emitted_app, emitted_replay_full. simpl emitted.
    rewrite append_empty_r. unfold report_requests. fold header.
    rewrite !text_of_app. simpl. rewrite append_empty_r. done. }
  eexists. split; [|exact Hemitted].
  rewrite Hrun. f_equal. f_equal.
  rewrite Hemitted, !append_length, !Nat2Z.inj_add, !text_of_length.
  change (Z.of_nat (String.length end_marker)) with 29. lia.
Qed.

Lemma small_report_is_complete_witness :
  ∃ t,
    write_minimal_crash_info_c full_kernel 8 3 11 1700000000 123456789012
        [3735928559; 0] 2 []
      = Ok (Z.of_nat (String.length (emitted 3 t)), t)
    ∧ emitted 3 t
      = text_of (header_requests 11 1700000000 123456789012 2)
        +:+ text_of (frames_requests (take (Z.to_nat 2) [3735928559; 0]))
        +:+ end_marker.
Proof.
  apply (small_report_is_complete 8 3 11 1700000000 123456789012
           [3735928559; 0] 2).
  - lia.
  - lia.
  - unfold in_int32, INT32_MIN, INT32_MAX. lia.
  - unfold in_uint64, UINT64_MAX. lia.
  - unfold in_int32, INT32_MIN, INT32_MAX. lia.
  - simpl. lia.
  - change (take (Z.to_nat 2) [3735928559; 0]) with [3735928559; 0].
    repeat (apply Forall_cons_2; [apply pointer_sized_mono; lia|]).
    apply Forall_nil_2.
  - vm_compute. discriminate.
Defined.
